(** * Nostr Order Bridge: the registration server

    A shallow embedding of the invite-only registration server
    (identity codec [npubToHex], the in-memory invite store, the admin
    endpoints and the registration workflow), first on bodies whose
    properties are strings, then ([Wire]) on any parsed body, with the
    header as it was sent and a target that may not parse, followed by the
    properties proved about it. *)

From Stdlib Require Import ZArith String Ascii HexadecimalString DecimalString.
From stdpp Require Import gmap strings list.
From Equations Require Import Equations.

Open Scope Z_scope.

(** ** JavaScript primitives used by the server *)

Module Js.

(** The outcome of evaluating a function body: a value, or [throw]. *)
Inductive completion (A : Type) : Type :=
| Return (a : A)
| Throw (msg : string).
Arguments Return {A} a.
Arguments Throw {A} msg.

(** Strings are sequences of code units; the model keeps the code units
    below 256, which is where every character the server inspects lives. *)
Definition chars (s : string) : list ascii := list_ascii_of_string s.

(** [s.startsWith(p)] *)
Fixpoint startsWith (s p : string) {struct p} : bool :=
  match p, s with
  | EmptyString, _ => true
  | String _ _, EmptyString => false
  | String b p', String a s' => if Ascii.eqb a b then startsWith s' p' else false
  end.

(** [s.slice(n)] for a non-negative [n] *)
Fixpoint slice (n : nat) (s : string) : string :=
  match n, s with
  | O, _ => s
  | S _, EmptyString => EmptyString
  | S n', String _ s' => slice n' s'
  end.

Fixpoint indexOf_from (s : list ascii) (c : ascii) (i : Z) : Z :=
  match s with
  | [] => -1
  | x :: s' => if Ascii.eqb x c then i else indexOf_from s' c (i + 1)
  end.

(** [s.indexOf(c)] for a one-character [c]: first position, or [-1]. *)
Definition indexOf (s : string) (c : ascii) : Z := indexOf_from (chars s) c 0.

(** [arr.slice(0, -k)]: everything but the last [k] elements. *)
Definition slice_0_neg {A} (k : nat) (l : list A) : list A :=
  take (length l - k)%nat l.

(** 32-bit integer operators.  [ToInt32] is the wrap-around every
    bitwise operator applies to its operands and to its result. *)
Definition ToInt32 (z : Z) : Z := (z + 2 ^ 31) mod 2 ^ 32 - 2 ^ 31.
Definition shl (a n : Z) : Z := ToInt32 (Z.shiftl (ToInt32 a) (n mod 32)).
Definition sar (a n : Z) : Z := Z.shiftr (ToInt32 a) (n mod 32).
Definition bor (a b : Z) : Z := ToInt32 (Z.lor (ToInt32 a) (ToInt32 b)).
Definition band (a b : Z) : Z := ToInt32 (Z.land (ToInt32 a) (ToInt32 b)).

(** [n.toString(16)] and [String(n)] for a non-negative integer [n]. *)
Definition toString16 (n : Z) : string :=
  HexadecimalString.NilZero.string_of_uint (N.to_hex_uint (Z.to_N n)).
Definition toString10 (n : Z) : string :=
  DecimalString.NilZero.string_of_uint (N.to_uint (Z.to_N n)).

Fixpoint repeat_char (c : ascii) (n : nat) : string :=
  match n with
  | O => EmptyString
  | S n' => String c (repeat_char c n')
  end.

(** [s.padStart(n, c)] for a one-character filler [c]. *)
Definition padStart (n : nat) (c : ascii) (s : string) : string :=
  repeat_char c (n - String.length s) +:+ s.

(** [arr.join('')] *)
Fixpoint join (l : list string) : string :=
  match l with
  | [] => EmptyString
  | s :: l' => s +:+ join l'
  end.

(** Truthiness of a string that may be [undefined]. *)
Definition truthy (v : option string) : bool :=
  match v with
  | None => false
  | Some EmptyString => false
  | Some (String _ _) => true
  end.

(** [a || b] on strings that may be [undefined], with a string default. *)
Definition or_else (v : option string) (d : string) : string :=
  match v with
  | Some (String a s) => String a s
  | _ => d
  end.

(** [v === s] for a [v] that may be [undefined]. *)
Definition strict_eq (v : option string) (s : string) : bool :=
  match v with
  | Some a => String.eqb a s
  | None => false
  end.

(** [s.replace(/\/$/, '')]: drop one trailing slash, if there is one. *)
Fixpoint strip_trailing_slash (s : string) : string :=
  match s with
  | EmptyString => EmptyString
  | String c EmptyString => if Ascii.eqb c "/" then EmptyString else s
  | String c s' => String c (strip_trailing_slash s')
  end.

End Js.

Import Js.

(** ** Identity codec: [npubToHex] *)

Definition CHARSET : string := "qpzry9x8gf2tvdw0s3jn54khce6mua7l".

(** First loop of [npubToHex]: look every character up in [CHARSET],
    pushing its position, and throw at the first one that is not there. *)
Fixpoint values_loop (data : list ascii) (values : list Z) : completion (list Z) :=
  match data with
  | [] => Return values
  | c :: data' =>
      let v := indexOf CHARSET c in
      if v =? -1 then Throw "Invalid npub character"
      else values_loop data' (values ++ [v])
  end.

(** The inner [while (bits >= 8)] loop: emit one byte per turn. *)
Equations drain (acc bits : Z) (bytes : list Z) : Z * list Z
  by wf (Z.to_nat bits) lt :=
  drain acc bits bytes with decide (bits >= 8) => {
    | left _ => drain acc (bits - 8) (bytes ++ [band (sar acc (bits - 8)) 255]);
    | right _ => (bits, bytes) }.
Next Obligation. lia. Qed.

(** The 5-bit to 8-bit loop, over the values without the checksum. *)
Fixpoint convert_loop (values : list Z) (acc bits : Z) (bytes : list Z) : list Z :=
  match values with
  | [] => bytes
  | v :: values' =>
      let acc := bor (shl acc 5) v in
      let bits := bits + 5 in
      let '(bits, bytes) := drain acc bits bytes in
      convert_loop values' acc bits bytes
  end.

Definition hex_of_bytes (bytes : list Z) : string :=
  join (map (fun b => padStart 2 "0" (toString16 b)) bytes).

Definition npubToHex (npub : string) : completion string :=
  if negb (startsWith npub "npub1") then Return npub
  else
    let data := slice 5 npub in
    match values_loop (chars data) [] with
    | Throw msg => Throw msg
    | Return values =>
        let bytes := convert_loop (slice_0_neg 6 values) 0 0 [] in
        Return (hex_of_bytes bytes)
    end.

Definition generator_npub : string :=
  "npub10xlxvlhemja6c4dqv22uapctqupfhlxm9h8z3k2e72q4k9hcz7vqpkge6d".
Definition generator_hex : string :=
  "79be667ef9dcbbac55a06295ce870b07029bfcdb2dce28d959f2815b16f81798".

(** ** The codec as the specification words it *)

Module CodecSpec.

Definition alphabet : list ascii := chars CHARSET.

(** The 5-bit value of an alphabet character: its position. *)
Definition value_of (c : ascii) : Z := indexOf CHARSET c.

(** The five bits of a value, most significant first. *)
Definition bits5 (v : Z) : list bool :=
  [Z.testbit v 4; Z.testbit v 3; Z.testbit v 2; Z.testbit v 1; Z.testbit v 0].

(** The number a bit sequence denotes, most significant bit first. *)
Definition number (bs : list bool) : Z :=
  fold_left (fun n (b : bool) => 2 * n + Z.b2z b) bs 0.

(** Cut a bit sequence into bytes; what is left below a full byte is
    dropped. *)
Fixpoint regroup8 (bs : list bool) : list Z :=
  match bs with
  | b7 :: b6 :: b5 :: b4 :: b3 :: b2 :: b1 :: b0 :: rest =>
      number [b7; b6; b5; b4; b3; b2; b1; b0] :: regroup8 rest
  | _ => []
  end.

Definition drop_last {A} (k : nat) (l : list A) : list A :=
  rev (drop k (rev l)).

Definition hex_digit (n : Z) : ascii :=
  nth (Z.to_nat n) (chars "0123456789abcdef") "0"%char.

Fixpoint hex (bytes : list Z) : string :=
  match bytes with
  | [] => EmptyString
  | b :: bytes' =>
      String (hex_digit (b / 16)) (String (hex_digit (b mod 16)) (hex bytes'))
  end.

Definition is_hex_digit (c : ascii) : bool :=
  bool_decide (c ∈ chars "0123456789abcdefABCDEF").

(** A raw key: exactly 64 hexadecimal characters. *)
Definition is_hex64 (s : string) : bool :=
  (String.length s =? 64)%nat && forallb is_hex_digit (chars s).

(** Decoding of the characters that follow the [npub1] prefix. *)
Definition decode_data (data : list ascii) : string :=
  hex (regroup8 (concat (map bits5 (drop_last 6 (map value_of data))))).

End CodecSpec.

(** ** Configuration *)

(** [process.env.LISTENER_TOKEN || ''] *)
Definition LISTENER_TOKEN (env_LISTENER_TOKEN : option string) : string :=
  or_else env_LISTENER_TOKEN "".

(** ** The invite store *)

(** An invite record.  [usedBy] and [usedAt] are properties that exist only
    once the registration handler has written them. *)
Record invite : Type := {
  label : string;
  createdAt : Z;
  used : bool;
  usedBy : option string;
  usedAt : option Z;
}.

(** The object [invites], used as a map from token to record: the model
    keeps its own properties, which are the records the server has created. *)
Abbreviation store := (gmap string invite).

(** ** Requests and responses *)

Inductive method : Type := GET | POST | OPTIONS | OtherMethod.

(** The properties of a parsed JSON body that the server reads; a property
    is absent ([None]) or a string.  Properties of any other type are the
    subject of [Wire] below. *)
Record fields : Type := {
  f_invite : option string;
  f_npub : option string;
  f_wooUrl : option string;
  f_storeName : option string;
  f_label : option string;
}.

(** What [await parseBody(req)] yields. *)
Inductive body : Type :=
| ParseFails (msg : string)      (* the promise rejects *)
| JsonNull                       (* the text was [null] *)
| JsonValue (f : fields).        (* any other JSON value *)

(** A request whose target [new URL] has parsed, with the [Authorization]
    value that the handler reads; [Wire.request] is the request as sent. *)
Record request : Type := {
  r_method : method;
  r_pathname : string;
  r_authorization : option string;
  r_body : body;
}.

Inductive payload : Type :=
| Error (msg : string)
| InviteCreated (token inviteUrl : string)
| Invites (all : store)
| Registered (webhookUrl webhookSecret : string)
| StatusOk.

Inductive response : Type :=
| Json (status : Z) (p : payload)       (* [jsonResponse(res, status, p)] *)
| NoContent                             (* the 204 of a CORS preflight *)
| StaticAsset (pathname : string).      (* handed to [serveStatic] *)

Definition status_of (r : response) : option Z :=
  match r with
  | Json st _ => Some st
  | NoContent => Some 204
  | StaticAsset _ => None
  end.

(** ** The downstream listener *)

Record listener_call : Type := {
  c_pubkey : string;
  c_name : string;
  c_webhookUrl : string;
  c_webhookSecret : string;
}.

(** How the [fetch] in [registerOnListener] ends. *)
Inductive listener_reply : Type :=
| NetworkError (msg : string)
| HttpReply (status : Z) (text : string) (json_error : option string).

(** The part of [registerOnListener] that runs once [fetch] has settled. *)
Definition registerOnListener (reply : listener_reply) : completion unit :=
  match reply with
  | NetworkError msg => Throw msg
  | HttpReply st text json_error =>
      if negb ((200 <=? st) && (st <=? 299)) then
        Throw ("Listener registration failed: " +:+ toString10 st +:+ " " +:+ text)
      else
        match json_error with
        | Some msg => Throw msg
        | None => Return tt
        end
  end.

(** Observable actions of a handler besides its response. *)
Inductive effect : Type :=
| RandomBytes (n : Z)
| CallListener (c : listener_call).

(** ** Admin endpoints *)

(** [POST /api/invites]; [random] is [crypto.randomBytes(16).toString('hex')]
    and [now] is [Date.now()].  On a string the log line that follows the
    insertion cannot throw; [Wire.create_invite] has it for any label. *)
Definition create_invite (token : string) (auth : option string) (b : body)
    (random : string) (now : Z) (invites : store)
    : response * store * list effect :=
  if negb (truthy auth)
     || negb (strict_eq auth ("Bearer " +:+ token))
  then (Json 401 (Error "Unauthorized"), invites, [])
  else
    match b with
    | ParseFails msg => (Json 400 (Error msg), invites, [])
    | JsonNull =>
        (Json 400 (Error "Cannot read properties of null (reading 'label')"),
         invites, [RandomBytes 16])
    | JsonValue f =>
        let record := {| label := or_else (f_label f) "";
                         createdAt := now;
                         used := false;
                         usedBy := None;
                         usedAt := None |} in
        let inviteUrl := "https://nostr.bitcoinbutlers.com?invite=" +:+ random in
        (Json 200 (InviteCreated random inviteUrl),
         <[random := record]> invites, [RandomBytes 16])
    end.

(** [GET /api/invites] *)
Definition list_invites (token : string) (auth : option string) (invites : store)
    : response :=
  if negb (truthy auth)
     || negb (strict_eq auth ("Bearer " +:+ token))
  then Json 401 (Error "Unauthorized")
  else Json 200 (Invites invites).

(** ** Registration *)

(** What the handler still holds while it awaits the listener. *)
Record pending : Type := {
  p_invite : string;
  p_storeName : string;
  p_call : listener_call;
}.

Inductive started : Type :=
| Responded (r : response)
| Awaiting (p : pending).

Definition invite_key (f : fields) : string := or_else (f_invite f) "".

(** [POST /api/register] from the parsed body up to the [await] of
    [registerOnListener]; [random] is [crypto.randomBytes(32).toString('hex')].
    Past its truthiness check a property [v] is the string [or_else v ""]. *)
Definition register_start (invites : store) (b : body) (random : string)
    : started * list effect :=
  match b with
  | ParseFails msg => (Responded (Json 500 (Error msg)), [])
  | JsonNull =>
      (Responded
         (Json 500 (Error "Cannot read properties of null (reading 'invite')")),
       [])
  | JsonValue f =>
      if negb (truthy (f_invite f))
         || negb (bool_decide (is_Some (invites !! invite_key f)))
      then (Responded (Json 403 (Error "Invalid or expired invite")), [])
      else if default false (used <$> invites !! invite_key f)
      then (Responded (Json 403 (Error "Invite already used")), [])
      else if negb (truthy (f_npub f)) || negb (truthy (f_wooUrl f))
              || negb (truthy (f_storeName f))
      then (Responded
              (Json 400 (Error "Missing required fields: npub, wooUrl, storeName")),
            [])
      else
        match npubToHex (or_else (f_npub f) "") with
        | Throw _ => (Responded (Json 400 (Error "Invalid npub format")), [])
        | Return pubkeyHex =>
            if negb (String.length pubkeyHex =? 64)%nat
            then (Responded
                    (Json 400 (Error "Invalid npub: decoded key is wrong length")),
                  [])
            else
              let webhookSecret := random in
              let wooUrl := strip_trailing_slash (or_else (f_wooUrl f) "") in
              let webhookUrl :=
                wooUrl +:+ "/wp-json/woo-nostr-market/v1/order-webhook" in
              let call := {| c_pubkey := pubkeyHex;
                             c_name := or_else (f_storeName f) "";
                             c_webhookUrl := webhookUrl;
                             c_webhookSecret := webhookSecret |} in
              (Awaiting {| p_invite := invite_key f;
                           p_storeName := or_else (f_storeName f) "";
                           p_call := call |},
               [RandomBytes 32; CallListener call])
        end
  end.

Definition mark_used (r : invite) (storeName : string) (now : Z) : invite :=
  {| label := label r;
     createdAt := createdAt r;
     used := true;
     usedBy := Some storeName;
     usedAt := Some now |}.

(** The rest of the handler, run when the awaited call settles; [now] is
    the [Date.now()] of the marking.  On a string the log line that follows
    the marking cannot throw; [Wire.register_finish] has it for any store
    name. *)
Definition register_finish (invites : store) (p : pending) (reply : listener_reply)
    (now : Z) : response * store :=
  match registerOnListener reply with
  | Throw msg => (Json 500 (Error msg), invites)
  | Return _ =>
      match invites !! p_invite p with
      | None =>
          (Json 500 (Error "Cannot set properties of undefined (setting 'used')"),
           invites)
      | Some r =>
          (Json 200 (Registered (c_webhookUrl (p_call p)) (c_webhookSecret (p_call p))),
           <[p_invite p := mark_used r (p_storeName p) now]> invites)
      end
  end.

(** One registration request handled with nothing else in between. *)
Definition register (invites : store) (b : body) (random : string)
    (reply : listener_reply) (now : Z) : response * store * list effect :=
  match register_start invites b random with
  | (Responded r, effects) => (r, invites, effects)
  | (Awaiting p, effects) =>
      let '(r, invites') := register_finish invites p reply now in
      (r, invites', effects)
  end.

(** ** The server as a whole *)

(** The process state: the invite store and the registrations that are
    awaiting the listener, each under the number of its request. *)
Record server : Type := {
  invites : store;
  awaiting : gmap nat pending;
  next_request : nat;
}.

Definition initial : server :=
  {| invites := ∅; awaiting := ∅; next_request := 0 |}.

(** What the event loop delivers: a request whose body has been read,
    together with the random string and clock reading its handler may
    consume, or the settling of an awaited listener call. *)
Inductive event : Type :=
| Request (req : request) (random : string) (now : Z)
| ListenerSettles (id : nat) (reply : listener_reply) (now : Z).

Inductive output : Type :=
| Responds (id : nat) (r : response)
| Performs (id : nat) (e : effect).

Definition handle_request (token : string) (s : server) (req : request)
    (random : string) (now : Z) : server * list output :=
  let id := next_request s in
  let s := {| invites := invites s; awaiting := awaiting s;
              next_request := S id |} in
  match r_method req with
  | OPTIONS => (s, [Responds id NoContent])
  | POST =>
      if String.eqb (r_pathname req) "/api/invites" then
        let '(r, invites', effects) :=
          create_invite token (r_authorization req) (r_body req) random now
            (invites s) in
        ({| invites := invites'; awaiting := awaiting s;
            next_request := next_request s |},
         map (Performs id) effects ++ [Responds id r])
      else if String.eqb (r_pathname req) "/api/register" then
        match register_start (invites s) (r_body req) random with
        | (Responded r, effects) =>
            (s, map (Performs id) effects ++ [Responds id r])
        | (Awaiting p, effects) =>
            ({| invites := invites s; awaiting := <[id := p]> (awaiting s);
                next_request := next_request s |},
             map (Performs id) effects)
        end
      else (s, [Responds id (Json 404 (Error "Not found"))])
  | GET =>
      if String.eqb (r_pathname req) "/api/invites" then
        (s, [Responds id (list_invites token (r_authorization req) (invites s))])
      else if String.eqb (r_pathname req) "/api/health" then
        (s, [Responds id (Json 200 StatusOk)])
      else (s, [Responds id (StaticAsset (r_pathname req))])
  | OtherMethod => (s, [Responds id (Json 404 (Error "Not found"))])
  end.

Definition step (token : string) (s : server) (e : event) : server * list output :=
  match e with
  | Request req random now => handle_request token s req random now
  | ListenerSettles id reply now =>
      match awaiting s !! id with
      | None => (s, [])
      | Some p =>
          let '(r, invites') := register_finish (invites s) p reply now in
          ({| invites := invites'; awaiting := delete id (awaiting s);
              next_request := next_request s |},
           [Responds id r])
      end
  end.

Fixpoint run (token : string) (s : server) (trace : list event)
    : server * list output :=
  match trace with
  | [] => (s, [])
  | e :: trace' =>
      let '(s1, out1) := step token s e in
      let '(s2, out2) := run token s1 trace' in
      (s2, out1 ++ out2)
  end.

(** The event is an invite creation whose random draw is [tok]. *)
Definition creates (tok : string) (e : event) : bool :=
  match e with
  | Request req random _ =>
      match r_method req with
      | POST => String.eqb (r_pathname req) "/api/invites" && String.eqb random tok
      | _ => false
      end
  | ListenerSettles _ _ _ => false
  end.

(** ** Vocabulary of the properties *)

(** The record under [tok] has been consumed. *)
Definition consumed (invites : store) (tok : string) : Prop :=
  exists r, invites !! tok = Some r /\ used r = true.

(** A request presents [tok], an invite that exists and is still unused. *)
Definition presents_unused (invites : store) (f : fields) (tok : string) : Prop :=
  f_invite f = Some tok /\ tok <> EmptyString /\
  exists r, invites !! tok = Some r /\ used r = false.

(** How one event can change the store: not at all, by inserting a fresh
    unused record under the drawn token, or by marking the record of a
    registration whose listener call succeeded. *)
Inductive store_change (s : server) (e : event) (inv' : store) : Prop :=
| Unchanged : inv' = invites s -> store_change s e inv'
| Created (req : request) (random lbl : string) (now : Z) :
    e = Request req random now ->
    r_method req = POST -> r_pathname req = "/api/invites" ->
    inv' = <[random := {| label := lbl; createdAt := now; used := false;
                          usedBy := None; usedAt := None |}]> (invites s) ->
    store_change s e inv'
| Marked (id : nat) (reply : listener_reply) (now : Z) (p : pending) (r : invite) :
    e = ListenerSettles id reply now ->
    awaiting s !! id = Some p ->
    registerOnListener reply = Return tt ->
    invites s !! p_invite p = Some r ->
    inv' = <[p_invite p := mark_used r (p_storeName p) now]> (invites s) ->
    store_change s e inv'.

(** The admin credential as the interface describes it: a header that is
    present, non-empty and equal to [Bearer <token>]. *)
Definition admin_header_ok (token : string) (auth : option string) : Prop :=
  exists a, auth = Some a /\ a <> EmptyString /\ a = "Bearer " +:+ token.

Definition unauthorized : response := Json 401 (Error "Unauthorized").

(** The listener calls and the successful registrations among the outputs
    of a run. *)
Definition listener_calls (out : list output) : list (nat * listener_call) :=
  omap (fun o => match o with
                 | Performs id (CallListener c) => Some (id, c)
                 | _ => None
                 end) out.

Definition registrations (out : list output) : list nat :=
  omap (fun o => match o with
                 | Responds id (Json 200 (Registered _ _)) => Some id
                 | _ => None
                 end) out.

Module WorkflowSpec.

(** The first missing field, in the order the workflow is specified to
    validate presence: store name, identifier, storefront URL. *)
Definition first_missing (f : fields) : option string :=
  match f_storeName f, f_npub f, f_wooUrl f with
  | None, _, _ => Some "storeName"
  | _, None, _ => Some "npub"
  | _, _, None => Some "wooUrl"
  | _, _, _ => None
  end.

End WorkflowSpec.

(** ** Scenarios *)

Module Scenario.

Definition admin_token : string := "s3cret".
Definition tok : string := "00112233445566778899aabbccddeeff".

Definition no_fields : fields :=
  {| f_invite := None; f_npub := None; f_wooUrl := None;
     f_storeName := None; f_label := None |}.

Definition create_request : request :=
  {| r_method := POST; r_pathname := "/api/invites";
     r_authorization := Some "Bearer s3cret";
     r_body := JsonValue {| f_invite := None; f_npub := None; f_wooUrl := None;
                            f_storeName := None; f_label := Some "friend" |} |}.

Definition registration (storeName : string) : fields :=
  {| f_invite := Some tok; f_npub := Some generator_npub;
     f_wooUrl := Some "https://shop.example/"; f_storeName := Some storeName;
     f_label := None |}.

Definition register_request (storeName : string) : request :=
  {| r_method := POST; r_pathname := "/api/register";
     r_authorization := None; r_body := JsonValue (registration storeName) |}.

Definition accepted : listener_reply := HttpReply 200 "{}" None.
Definition refused : listener_reply := HttpReply 409 "duplicate" None.

(** One fresh invite, then two registrations that both present it; the
    second arrives while the first is still awaiting the listener. *)
Definition race : list event :=
  [ Request create_request tok 1000;
    Request (register_request "Alice") "aa" 1001;
    Request (register_request "Bob") "bb" 1002;
    ListenerSettles 1 accepted 1003;
    ListenerSettles 2 accepted 1004 ].

(** The same two registrations, one after the other. *)
Definition in_sequence : list event :=
  [ Request create_request tok 1000;
    Request (register_request "Alice") "aa" 1001;
    ListenerSettles 1 accepted 1002;
    Request (register_request "Bob") "bb" 1003 ].

Definition unused_invite : invite :=
  {| label := "friend"; createdAt := 1000; used := false;
     usedBy := None; usedAt := None |}.

Definition one_unused : store := {[ tok := unused_invite ]}.

Definition one_used : store :=
  {[ tok := mark_used unused_invite "Alice" 1002 ]}.

Definition without_npub : fields :=
  {| f_invite := Some tok; f_npub := None;
     f_wooUrl := Some "https://shop.example"; f_storeName := Some "Alice";
     f_label := None |}.

Definition without_storeName : fields :=
  {| f_invite := Some tok; f_npub := Some generator_npub;
     f_wooUrl := Some "https://shop.example"; f_storeName := None;
     f_label := None |}.

Definition short_key : fields :=
  {| f_invite := Some tok; f_npub := Some "abcdef";
     f_wooUrl := Some "https://shop.example"; f_storeName := Some "Alice";
     f_label := None |}.

End Scenario.

(** ** Vocabulary of the further properties *)

(** The bits carried by the data characters of an identifier once the six
    checksum characters have been set aside. *)
Definition payload_bits (data : string) : list bool :=
  concat (map CodecSpec.bits5
            (CodecSpec.drop_last 6 (map CodecSpec.value_of (chars data)))).

Definition lower_hex_digits : list ascii := chars "0123456789abcdef".

(** The call a registration makes to the listener, from the decoded key,
    the store name, the storefront URL and the secret drawn for it. *)
Definition registration_call (pubkeyHex storeName wooUrl secret : string)
    : listener_call :=
  {| c_pubkey := pubkeyHex;
     c_name := storeName;
     c_webhookUrl :=
       strip_trailing_slash wooUrl +:+ "/wp-json/woo-nostr-market/v1/order-webhook";
     c_webhookSecret := secret |}.

(** The [invite] property, if the body has one, is in the format of the
    tokens the server issues: hexadecimal digits only.  Such a string names
    no property that the object [invites] inherits, so looking it up finds
    a record of the store or nothing. *)
Definition issued_format (f : fields) : Prop :=
  forall tok, f_invite f = Some tok ->
              forallb CodecSpec.is_hex_digit (chars tok) = true.

(** A body property that is missing or is the empty string. *)
Definition absent_or_empty (v : option string) : Prop :=
  v = None \/ v = Some EmptyString.

(** The last character of a string, if it has one. *)
Fixpoint last_char (s : string) : option ascii :=
  match s with
  | EmptyString => None
  | String c EmptyString => Some c
  | String _ s' => last_char s'
  end.

Module Cases.

(** Sixty-four characters, none of them a hexadecimal digit. *)
Definition not_a_key : string :=
  "zzzzzzzzzzzzzzzzzzzzzzzzzzzzzzzzzzzzzzzzzzzzzzzzzzzzzzzzzzzzzzzz".

Definition with_raw_key : fields :=
  {| f_invite := Some Scenario.tok; f_npub := Some not_a_key;
     f_wooUrl := Some "https://shop.example"; f_storeName := Some "Alice";
     f_label := None |}.

Definition unknown_invite : fields :=
  {| f_invite := Some "0123abcd"; f_npub := None; f_wooUrl := None;
     f_storeName := None; f_label := None |}.

End Cases.

(** ** Persistence of the store *)

Section Persistence.

(** [JSON.stringify] and [JSON.parse] on the store; [None] is a thrown
    [SyntaxError].  The text of the file is kept abstract. *)
Context {text : Type}.
Variable JSON_stringify : store -> text.
Variable JSON_parse : text -> option store.

(** The snapshot file as the server finds it.  A file whose text parses to
    something other than an object of invite records is outside the model. *)
Inductive snapshot : Type :=
| NoFile                       (* [fs.existsSync] answers false *)
| Unreadable                   (* [fs.readFileSync] throws *)
| Holds (t : text).

(** [loadInvites]: whatever throws is caught and leaves [invites] as it is. *)
Definition loadInvites (file : snapshot) (invites : store) : store :=
  match file with
  | NoFile => invites
  | Unreadable => invites
  | Holds t =>
      match JSON_parse t with
      | Some loaded => loaded
      | None => invites
      end
  end.

(** How [fs.writeFileSync] ends: the file holds the text, or the call
    throws and leaves the file in some state. *)
Inductive write_outcome : Type :=
| Written
| WriteFails (remains : snapshot).

(** [saveInvites]: a failed write is caught and only logged. *)
Definition saveInvites (invites : store) (w : write_outcome) : snapshot :=
  match w with
  | Written => Holds (JSON_stringify invites)
  | WriteFails remains => remains
  end.

(** [saveInvites()] is called on the two paths that go on to answer
    [InviteCreated] and [Registered], and on no other. *)
Definition reaches_save (out : list output) : bool :=
  existsb (fun o => match o with
                    | Responds _ (Json 200 (InviteCreated _ _)) => true
                    | Responds _ (Json 200 (Registered _ _)) => true
                    | _ => false
                    end) out.

(** The process at start-up: [invites = {}], then [loadInvites()]. *)
Definition boot (file : snapshot) : server :=
  {| invites := loadInvites file ∅; awaiting := ∅; next_request := 0 |}.

(** One event, with the outcome of the write it may lead to. *)
Definition step_saving (token : string) (s : server) (file : snapshot)
    (e : event) (w : write_outcome) : server * snapshot * list output :=
  let '(s', out) := step token s e in
  (s', if reaches_save out then saveInvites (invites s') w else file, out).

Fixpoint run_saving (token : string) (s : server) (file : snapshot)
    (trace : list (event * write_outcome)) : server * snapshot :=
  match trace with
  | [] => (s, file)
  | (e, w) :: trace' =>
      let '(s', file', _) := step_saving token s file e w in
      run_saving token s' file' trace'
  end.

End Persistence.

(** ** JavaScript values *)

Module JSON.

(** The values the handlers meet: what [JSON.parse] builds, and
    [undefined] for a property that is not there.  A number is kept by the
    string [String(n)] that JavaScript prints it as, which is all the server
    asks of one ([JSON.parse] yields no [NaN], so zero, printed [0], is the
    one falsy number); an object by the list of its members.  Values
    nested so deep that printing them would exhaust the engine's stack are
    outside the model. *)
#[warnings="-register-all"] Inductive value : Type :=
| Undefined
| Null
| Bool (b : bool)
| Num (printed : string)
| Str (s : string)
| Arr (items : list value)
| Obj (members : list (string * value)).

(** The object has a property [k] of its own. *)
Fixpoint has (k : string) (members : list (string * value)) : bool :=
  match members with
  | [] => false
  | (k', _) :: rest => String.eqb k' k || has k rest
  end.

(** The own property [k] of an object, [undefined] when it has none.  The
    members are in the order of the JSON text; where the text repeats a
    name, [JSON.parse] keeps the later value. *)
Fixpoint get (k : string) (members : list (string * value)) : value :=
  match members with
  | [] => Undefined
  | (k', v) :: rest =>
      if has k rest then get k rest
      else if String.eqb k' k then v else Undefined
  end.

(** [v.k], for the property names the server reads ([invite], [npub],
    [wooUrl], [storeName], [label]), none of which a string, a number, a
    boolean, an array or [Object.prototype] has. *)
Definition prop (v : value) (k : string) : completion value :=
  match v with
  | Undefined =>
      Throw ("Cannot read properties of undefined (reading '" +:+ k +:+ "')")
  | Null => Throw ("Cannot read properties of null (reading '" +:+ k +:+ "')")
  | Obj members => Return (get k members)
  | _ => Return Undefined
  end.

(** [v.k] once [v] is known to be neither [null] nor [undefined]. *)
Definition field (v : value) (k : string) : value :=
  match v with
  | Obj members => get k members
  | _ => Undefined
  end.

(** Truthiness, as [!v] and [v || d] test it. *)
Definition truthy (v : value) : bool :=
  match v with
  | Undefined | Null => false
  | Bool b => b
  | Num printed => negb (String.eqb printed "0")
  | Str s => negb (String.eqb s "")
  | Arr _ | Obj _ => true
  end.

(** [v || d] *)
Definition or_else (v d : value) : value := if truthy v then v else d.

(** [String(v)], as a template literal and a property key apply it.  An
    array joins the strings of its elements; an object parsed from JSON
    prints [[object Object]] through the inherited [toString], unless it
    has a property of that name of its own: that one is not a function,
    [valueOf] yields no primitive either, and the conversion throws a
    [TypeError]. *)
Fixpoint toString (v : value) : completion string :=
  match v with
  | Undefined => Return "undefined"
  | Null => Return "null"
  | Bool true => Return "true"
  | Bool false => Return "false"
  | Num printed => Return printed
  | Str s => Return s
  | Arr items =>
      (fix join (l : list value) : completion string :=
         match l with
         | [] => Return ""
         | x :: l' =>
             match (match x with
                    | Undefined | Null => Return ""
                    | _ => toString x
                    end) with
             | Throw msg => Throw msg
             | Return sx =>
                 match l' with
                 | [] => Return sx
                 | _ :: _ =>
                     match join l' with
                     | Throw msg => Throw msg
                     | Return sl => Return (sx +:+ "," +:+ sl)
                     end
                 end
             end
         end) items
  | Obj members =>
      if has "toString" members
      then Throw "Cannot convert object to primitive value"
      else Return "[object Object]"
  end.

(** [String(v)] does not throw. *)
Definition prints (v : value) : Prop := exists s, toString v = Return s.

(** The falsy values: those the server takes for a missing property. *)
Definition falsy (v : value) : Prop :=
  v = Undefined \/ v = Null \/ v = Bool false \/ v = Num "0" \/ v = Str "".

End JSON.

(** ** Header values as Node hands them to the handler *)

Module Node.

(** Optional whitespace around a field value: space and horizontal tab. *)
Definition is_ows (c : ascii) : bool :=
  Ascii.eqb c " " || Ascii.eqb c "009".

Fixpoint trim_left (s : string) : string :=
  match s with
  | EmptyString => EmptyString
  | String c s' => if is_ows c then trim_left s' else s
  end.

Fixpoint trim_right (s : string) : string :=
  match s with
  | EmptyString => EmptyString
  | String c s' =>
      match trim_right s' with
      | EmptyString => if is_ows c then EmptyString else String c EmptyString
      | t => String c t
      end
  end.

(** [req.headers.authorization] for a request whose one [Authorization]
    line carries [raw] after the colon: the HTTP parser drops the
    whitespace before and after the value. *)
Definition field_value (raw : string) : string := trim_right (trim_left raw).

End Node.

(** ** The server on requests as they arrive *)

(** The definitions of the sections above take a request whose target has
    been parsed, whose header is the value the handler reads and whose body
    properties are strings or missing.  The module below follows the same
    handlers on any parsed body, with the header as it was sent and a
    target that [new URL] may refuse. *)
Module Wire.

Record invite : Type := {
  label : JSON.value;
  createdAt : Z;
  used : bool;
  usedBy : option JSON.value;
  usedAt : option Z;
}.

(** The own properties of the object [invites].  A key that names a
    property inherited from [Object.prototype] finds that property in the
    code and nothing here; the tokens the server issues, made of
    hexadecimal digits, are no such names. *)
Abbreviation store := (gmap string invite).

(** What [await parseBody(req)] yields. *)
Inductive body : Type :=
| ParseFails (msg : string)      (* the promise rejects *)
| Parsed (v : JSON.value).

Record request : Type := {
  r_method : method;
  r_pathname : option string;      (* [None]: [new URL(req.url, ...)] throws *)
  r_authorization : option string; (* the header value as it was sent *)
  r_body : body;
}.

Inductive payload : Type :=
| Error (msg : string)
| InviteCreated (token inviteUrl : string)
| Invites (all : store)
| Registered (webhookUrl webhookSecret : string)
| StatusOk.

Inductive response : Type :=
| Json (status : Z) (p : payload)
| NoContent
| StaticAsset (pathname : string).

Definition status_of (r : response) : option Z :=
  match r with
  | Json st _ => Some st
  | NoContent => Some 204
  | StaticAsset _ => None
  end.

Definition unauthorized : response := Json 401 (Error "Unauthorized").

Record listener_call : Type := {
  c_pubkey : string;
  c_name : JSON.value;
  c_webhookUrl : string;
  c_webhookSecret : string;
}.

Inductive effect : Type :=
| RandomBytes (n : Z)
| CallListener (c : listener_call).

(** [POST /api/invites], lines 146-168.  The record is inserted and saved
    before the log line prints the label, so a label that cannot be
    printed is answered 400 with the record in the store. *)
Definition create_invite (token : string) (auth : option string) (b : body)
    (random : string) (now : Z) (invites : store)
    : response * store * list effect :=
  if negb (Js.truthy auth)
     || negb (strict_eq auth ("Bearer " +:+ token))
  then (Json 401 (Error "Unauthorized"), invites, [])
  else
    match b with
    | ParseFails msg => (Json 400 (Error msg), invites, [])
    | Parsed v =>
        match JSON.prop v "label" with
        | Throw msg => (Json 400 (Error msg), invites, [RandomBytes 16])
        | Return lbl =>
            let record := {| label := JSON.or_else lbl (JSON.Str "");
                             createdAt := now;
                             used := false;
                             usedBy := None;
                             usedAt := None |} in
            let invites' := <[random := record]> invites in
            let inviteUrl := "https://nostr.bitcoinbutlers.com?invite=" +:+ random in
            match JSON.toString (JSON.or_else lbl (JSON.Str "no label")) with
            | Throw msg => (Json 400 (Error msg), invites', [RandomBytes 16])
            | Return _ =>
                (Json 200 (InviteCreated random inviteUrl), invites',
                 [RandomBytes 16])
            end
        end
    end.

(** [GET /api/invites] *)
Definition list_invites (token : string) (auth : option string) (invites : store)
    : response :=
  if negb (Js.truthy auth)
     || negb (strict_eq auth ("Bearer " +:+ token))
  then Json 401 (Error "Unauthorized")
  else Json 200 (Invites invites).

Record pending : Type := {
  p_invite : string;
  p_storeName : JSON.value;
  p_call : listener_call;
}.

Inductive started : Type :=
| Responded (r : response)
| Awaiting (p : pending).

(** [npubToHex(body.npub)]: a value that is not a string has no
    [startsWith] to call. *)
Definition decode (npub : JSON.value) : completion string :=
  match npub with
  | JSON.Str s => npubToHex s
  | _ => Throw "npub.startsWith is not a function"
  end.

(** [body.wooUrl.replace(/\/$/, '')] *)
Definition without_trailing_slash (wooUrl : JSON.value) : completion string :=
  match wooUrl with
  | JSON.Str s => Return (strip_trailing_slash s)
  | _ => Throw "body.wooUrl.replace is not a function"
  end.

(** Lines 194-218, for a body [v] that presented the unused invite [key]:
    the truthiness of the three fields, the decoding of the identifier, the
    secret, the webhook URL and the call. *)
Definition validate_and_call (v : JSON.value) (key random : string)
    : started * list effect :=
  let npub := JSON.field v "npub" in
  let wooUrl := JSON.field v "wooUrl" in
  let storeName := JSON.field v "storeName" in
  if negb (JSON.truthy npub) || negb (JSON.truthy wooUrl)
     || negb (JSON.truthy storeName)
  then (Responded
          (Json 400 (Error "Missing required fields: npub, wooUrl, storeName")),
        [])
  else
    match decode npub with
    | Throw _ => (Responded (Json 400 (Error "Invalid npub format")), [])
    | Return pubkeyHex =>
        if negb (String.length pubkeyHex =? 64)%nat
        then (Responded
                (Json 400 (Error "Invalid npub: decoded key is wrong length")),
              [])
        else
          let webhookSecret := random in
          match without_trailing_slash wooUrl with
          | Throw msg => (Responded (Json 500 (Error msg)), [RandomBytes 32])
          | Return url =>
              let webhookUrl :=
                url +:+ "/wp-json/woo-nostr-market/v1/order-webhook" in
              let call := {| c_pubkey := pubkeyHex;
                             c_name := storeName;
                             c_webhookUrl := webhookUrl;
                             c_webhookSecret := webhookSecret |} in
              (Awaiting {| p_invite := key;
                           p_storeName := storeName;
                           p_call := call |},
               [RandomBytes 32; CallListener call])
          end
    end.

(** [POST /api/register] from the parsed body up to the [await] of
    [registerOnListener]. *)
Definition register_start (invites : store) (b : body) (random : string)
    : started * list effect :=
  match b with
  | ParseFails msg => (Responded (Json 500 (Error msg)), [])
  | Parsed v =>
      match JSON.prop v "invite" with
      | Throw msg => (Responded (Json 500 (Error msg)), [])
      | Return invite =>
          if negb (JSON.truthy invite)
          then (Responded (Json 403 (Error "Invalid or expired invite")), [])
          else
            match JSON.toString invite with
            | Throw msg => (Responded (Json 500 (Error msg)), [])
            | Return key =>
                match invites !! key with
                | None =>
                    (Responded (Json 403 (Error "Invalid or expired invite")), [])
                | Some record =>
                    if used record
                    then (Responded (Json 403 (Error "Invite already used")), [])
                    else validate_and_call v key random
                end
            end
      end
  end.

Definition mark_used (r : invite) (storeName : JSON.value) (now : Z) : invite :=
  {| label := label r;
     createdAt := createdAt r;
     used := true;
     usedBy := Some storeName;
     usedAt := Some now |}.

(** The rest of the handler, run when the awaited call settles, lines
    218-237.  The record is marked and saved before the log line prints the
    store name, so a store name that cannot be printed is answered 500 with
    the invite consumed. *)
Definition register_finish (invites : store) (p : pending) (reply : listener_reply)
    (now : Z) : response * store :=
  match registerOnListener reply with
  | Throw msg => (Json 500 (Error msg), invites)
  | Return _ =>
      match invites !! p_invite p with
      | None =>
          (Json 500 (Error "Cannot set properties of undefined (setting 'used')"),
           invites)
      | Some r =>
          let invites' := <[p_invite p := mark_used r (p_storeName p) now]> invites in
          match JSON.toString (p_storeName p) with
          | Throw msg => (Json 500 (Error msg), invites')
          | Return _ =>
              (Json 200 (Registered (c_webhookUrl (p_call p))
                           (c_webhookSecret (p_call p))),
               invites')
          end
      end
  end.

(** One registration request handled with nothing else in between. *)
Definition register (invites : store) (b : body) (random : string)
    (reply : listener_reply) (now : Z) : response * store * list effect :=
  match register_start invites b random with
  | (Responded r, effects) => (r, invites, effects)
  | (Awaiting p, effects) =>
      let '(r, invites') := register_finish invites p reply now in
      (r, invites', effects)
  end.

Record server : Type := {
  invites : store;
  awaiting : gmap nat pending;
  next_request : nat;
}.

Definition initial : server :=
  {| invites := ∅; awaiting := ∅; next_request := 0 |}.

Inductive event : Type :=
| Request (req : request) (random : string) (now : Z)
| ListenerSettles (id : nat) (reply : listener_reply) (now : Z).

Inductive output : Type :=
| Responds (id : nat) (r : response)
| Performs (id : nat) (e : effect).

(** The handler on a request whose target has been parsed. *)
Definition route (token : string) (s : server) (id : nat) (m : method)
    (pathname : string) (auth : option string) (b : body) (random : string)
    (now : Z) : server * list output :=
  match m with
  | OPTIONS => (s, [Responds id NoContent])
  | POST =>
      if String.eqb pathname "/api/invites" then
        let '(r, invites', effects) :=
          create_invite token auth b random now (invites s) in
        ({| invites := invites'; awaiting := awaiting s;
            next_request := next_request s |},
         map (Performs id) effects ++ [Responds id r])
      else if String.eqb pathname "/api/register" then
        match register_start (invites s) b random with
        | (Responded r, effects) =>
            (s, map (Performs id) effects ++ [Responds id r])
        | (Awaiting p, effects) =>
            ({| invites := invites s; awaiting := <[id := p]> (awaiting s);
                next_request := next_request s |},
             map (Performs id) effects)
        end
      else (s, [Responds id (Json 404 (Error "Not found"))])
  | GET =>
      if String.eqb pathname "/api/invites" then
        (s, [Responds id (list_invites token auth (invites s))])
      else if String.eqb pathname "/api/health" then
        (s, [Responds id (Json 200 StatusOk)])
      else (s, [Responds id (StaticAsset pathname)])
  | OtherMethod => (s, [Responds id (Json 404 (Error "Not found"))])
  end.

(** The request listener.  [OPTIONS] is answered at line 140, before the
    target is parsed at line 142; there [new URL] runs outside every [try],
    so a target it refuses rejects the handler's promise with nobody to
    catch it: no response is written, and the model follows the process no
    further ([None]). *)
Definition handle_request (token : string) (s : server) (req : request)
    (random : string) (now : Z) : option (server * list output) :=
  let id := next_request s in
  let s := {| invites := invites s; awaiting := awaiting s;
              next_request := S id |} in
  match r_method req, r_pathname req with
  | OPTIONS, _ => Some (s, [Responds id NoContent])
  | _, None => None
  | m, Some pathname =>
      Some (route token s id m pathname
              (Node.field_value <$> r_authorization req) (r_body req) random now)
  end.

Definition step (token : string) (s : server) (e : event)
    : option (server * list output) :=
  match e with
  | Request req random now => handle_request token s req random now
  | ListenerSettles id reply now =>
      match awaiting s !! id with
      | None => Some (s, [])
      | Some p =>
          let '(r, invites') := register_finish (invites s) p reply now in
          Some ({| invites := invites'; awaiting := delete id (awaiting s);
                   next_request := next_request s |},
                [Responds id r])
      end
  end.

Fixpoint run (token : string) (s : server) (trace : list event)
    : option (server * list output) :=
  match trace with
  | [] => Some (s, [])
  | e :: trace' =>
      match step token s e with
      | None => None
      | Some (s1, out1) =>
          match run token s1 trace' with
          | None => None
          | Some (s2, out2) => Some (s2, out1 ++ out2)
          end
      end
  end.

Definition time_of (e : event) : Z :=
  match e with
  | Request _ _ now => now
  | ListenerSettles _ _ now => now
  end.

(** Successive readings of the clock never go back, starting at [lo]. *)
Fixpoint clock_monotone (lo : Z) (trace : list event) : bool :=
  match trace with
  | [] => true
  | e :: trace' => (lo <=? time_of e) && clock_monotone (time_of e) trace'
  end.

(** The event is an invite creation whose random draw is [tok]. *)
Definition creates (tok : string) (e : event) : bool :=
  match e with
  | Request req random _ =>
      match r_method req, r_pathname req with
      | POST, Some pathname =>
          String.eqb pathname "/api/invites" && String.eqb random tok
      | _, _ => false
      end
  | ListenerSettles _ _ _ => false
  end.


(** The record under [tok] has been consumed. *)
Definition consumed (invites : store) (tok : string) : Prop :=
  exists r, invites !! tok = Some r /\ used r = true.

(** The body [v] presents [key], an invite that exists and is unused. *)
Definition presents_unused (invites : store) (v : JSON.value) (key : string)
    : Prop :=
  exists invite,
    JSON.prop v "invite" = Return invite /\ JSON.truthy invite = true /\
    JSON.toString invite = Return key /\
    exists r, invites !! key = Some r /\ used r = false.

(** The [invite] property, if it is truthy, names whatever its type a key
    in the format of the tokens the server issues: hexadecimal digits only.
    Such a key names no property that the object [invites] inherits. *)
Definition issued_key (v : JSON.value) : Prop :=
  forall invite key,
    JSON.prop v "invite" = Return invite -> JSON.truthy invite = true ->
    JSON.toString invite = Return key ->
    forallb CodecSpec.is_hex_digit (chars key) = true.

(** How one event can change the store: not at all, by inserting a fresh
    unused record under the drawn token, or by marking the record of a
    registration whose listener call succeeded. *)
Inductive store_change (s : server) (e : event) (inv' : store) : Prop :=
| Unchanged : inv' = invites s -> store_change s e inv'
| Created (req : request) (random : string) (lbl : JSON.value) (now : Z) :
    e = Request req random now ->
    r_method req = POST -> r_pathname req = Some "/api/invites"%string ->
    inv' = <[random := {| label := lbl; createdAt := now; used := false;
                          usedBy := None; usedAt := None |}]> (invites s) ->
    store_change s e inv'
| Marked (id : nat) (reply : listener_reply) (now : Z) (p : pending) (r : invite) :
    e = ListenerSettles id reply now ->
    awaiting s !! id = Some p ->
    registerOnListener reply = Return tt ->
    invites s !! p_invite p = Some r ->
    inv' = <[p_invite p := mark_used r (p_storeName p) now]> (invites s) ->
    store_change s e inv'.

Definition listener_calls (out : list output) : list (nat * listener_call) :=
  omap (fun o => match o with
                 | Performs id (CallListener c) => Some (id, c)
                 | _ => None
                 end) out.

Definition registrations (out : list output) : list nat :=
  omap (fun o => match o with
                 | Responds id (Json 200 (Registered _ _)) => Some id
                 | _ => None
                 end) out.

(** The call a registration makes to the listener, from the decoded key,
    the store name, the storefront URL and the secret drawn for it. *)
Definition registration_call (pubkeyHex : string) (storeName : JSON.value)
    (wooUrl secret : string) : listener_call :=
  {| c_pubkey := pubkeyHex;
     c_name := storeName;
     c_webhookUrl :=
       strip_trailing_slash wooUrl +:+ "/wp-json/woo-nostr-market/v1/order-webhook";
     c_webhookSecret := secret |}.

(** The data-model invariant of one record, but for the order of the two
    dates. *)
Definition record_ok (r : invite) : Prop :=
  if used r
  then is_Some (usedBy r) /\ is_Some (usedAt r)
  else usedBy r = None /\ usedAt r = None.

(** The order of the two dates. *)
Definition record_dated (r : invite) : Prop :=
  forall t, usedAt r = Some t -> createdAt r <= t.

(** The invariant that carries [record_dated] through a run: moreover, no
    record was created after the clock reading [lo]. *)
Definition store_dated_until (lo : Z) (invites : store) : Prop :=
  forall tok r, invites !! tok = Some r -> record_dated r /\ createdAt r <= lo.

(** The answers of the steps at which a registration is specified to fail
    before the invite is marked, the failure of the listener call apart. *)
Definition rejections : list response :=
  [ Json 403 (Error "Invalid or expired invite");
    Json 403 (Error "Invite already used");
    Json 400 (Error "Missing required fields: npub, wooUrl, storeName");
    Json 400 (Error "Invalid npub format");
    Json 400 (Error "Invalid npub: decoded key is wrong length") ].

End Wire.

(** ** Bodies with string properties, among all bodies *)

(** What the sections before [Wire] speak of, in the terms of [Wire]: a
    property that is a string or missing, a record whose label and store
    name are strings. *)
Module Lift.












End Lift.

(** ** Requests as they arrive: samples *)

Module Traffic.

(** A value that [String(...)] cannot print: an object whose own
    [toString] is not a function. *)
Definition unprintable : JSON.value := JSON.Obj [("toString"%string, JSON.Num "0")].

Definition registration (storeName : JSON.value) : JSON.value :=
  JSON.Obj [ ("invite"%string, JSON.Str Scenario.tok);
             ("npub"%string, JSON.Str generator_npub);
             ("wooUrl"%string, JSON.Str "https://shop.example/");
             ("storeName"%string, storeName) ].

Definition create_request (lbl : JSON.value) : Wire.request :=
  {| Wire.r_method := POST; Wire.r_pathname := Some "/api/invites"%string;
     Wire.r_authorization := Some "Bearer s3cret"%string;
     Wire.r_body := Wire.Parsed (JSON.Obj [("label"%string, lbl)]) |}.

Definition register_request (storeName : JSON.value) : Wire.request :=
  {| Wire.r_method := POST; Wire.r_pathname := Some "/api/register"%string;
     Wire.r_authorization := None;
     Wire.r_body := Wire.Parsed (registration storeName) |}.

Definition unused_invite : Wire.invite :=
  {| Wire.label := JSON.Str "friend"; Wire.createdAt := 1000; Wire.used := false;
     Wire.usedBy := None; Wire.usedAt := None |}.

Definition one_unused : Wire.store := {[ Scenario.tok := unused_invite ]}.

Definition one_used : Wire.store :=
  {[ Scenario.tok := Wire.mark_used unused_invite (JSON.Str "Alice") 1002 ]}.

Definition call (storeName : JSON.value) (secret : string) : Wire.listener_call :=
  {| Wire.c_pubkey := generator_hex; Wire.c_name := storeName;
     Wire.c_webhookUrl :=
       "https://shop.example/wp-json/woo-nostr-market/v1/order-webhook";
     Wire.c_webhookSecret := secret |}.

(** One invite, one registration, and a clock that is set back while the
    registration awaits the listener. *)
Definition clock_set_back : list Wire.event :=
  [ Wire.Request (create_request (JSON.Str "friend")) Scenario.tok 1000;
    Wire.Request (register_request (JSON.Str "Alice")) "aa" 1001;
    Wire.ListenerSettles 1 Scenario.accepted 999 ].

Definition in_sequence : list Wire.event :=
  [ Wire.Request (create_request (JSON.Str "friend")) Scenario.tok 1000;
    Wire.Request (register_request (JSON.Str "Alice")) "aa" 1001;
    Wire.ListenerSettles 1 Scenario.accepted 1002;
    Wire.Request (register_request (JSON.Str "Bob")) "bb" 1003 ].

(** Both admin endpoints, asked with the header line [Authorization: Bearer ]
    and its trailing space. *)
Definition bearer_alone (m : method) : Wire.request :=
  {| Wire.r_method := m; Wire.r_pathname := Some "/api/invites"%string;
     Wire.r_authorization := Some "Bearer "%string;
     Wire.r_body := Wire.Parsed (JSON.Obj []) |}.

(** A request whose target [new URL] refuses, such as [//]. *)
Definition refused_target : Wire.request :=
  {| Wire.r_method := GET; Wire.r_pathname := None;
     Wire.r_authorization := None; Wire.r_body := Wire.ParseFails "Invalid JSON" |}.

Definition preflight : Wire.request :=
  {| Wire.r_method := OPTIONS; Wire.r_pathname := None;
     Wire.r_authorization := None; Wire.r_body := Wire.ParseFails "Invalid JSON" |}.


(** One fresh invite, then two registrations that both present it; the
    second is read while the first is still awaiting the listener. *)
Definition race : list Wire.event :=
  [ Wire.Request (create_request (JSON.Str "friend")) Scenario.tok 1000;
    Wire.Request (register_request (JSON.Str "Alice")) "aa" 1001;
    Wire.Request (register_request (JSON.Str "Bob")) "bb" 1002;
    Wire.ListenerSettles 1 Scenario.accepted 1003;
    Wire.ListenerSettles 2 Scenario.accepted 1004 ].

End Traffic.

(** * Properties *)

(** ** Arithmetic of the 32-bit accumulator *)

Section Int32.

Lemma pow2_split (k : Z) : 0 <= k <= 32 -> 2 ^ 32 = 2 ^ k * 2 ^ (32 - k).
Proof. intros. rewrite <- Z.pow_add_r by lia. f_equal. lia. Qed.

Lemma ToInt32_mod (z k : Z) : 0 <= k <= 32 -> ToInt32 z mod 2 ^ k = z mod 2 ^ k.
Proof.
  intros Hk. unfold ToInt32.
  assert (Hd : (2 ^ k | 2 ^ 32)) by (exists (2 ^ (32 - k)); rewrite (pow2_split k Hk); lia).
  assert (Hpos : 0 < 2 ^ k) by (apply Z.pow_pos_nonneg; lia).
  rewrite Zminus_mod, (Z.mod_mod_divide _ _ _ Hd), <- Zminus_mod.
  f_equal. lia.
Qed.

Lemma ToInt32_range (z : Z) : - 2 ^ 31 <= ToInt32 z < 2 ^ 31.
Proof. unfold ToInt32. pose proof (Z.mod_pos_bound (z + 2 ^ 31) (2 ^ 32)). lia. Qed.

Lemma ToInt32_small (z : Z) : - 2 ^ 31 <= z < 2 ^ 31 -> ToInt32 z = z.
Proof. intros H. unfold ToInt32. rewrite Z.mod_small; lia. Qed.


Lemma lor_low_bits (x v : Z) : x mod 32 = 0 -> 0 <= v < 32 -> Z.lor x v = x + v.
Proof.
  intros Hx Hv. symmetry. apply Z.add_nocarry_lor.
  apply Z.bits_inj'. intros n Hn. rewrite Z.land_spec, Z.bits_0.
  destruct (Z.lt_ge_cases n 5) as [Hlt | Hge].
  - replace x with (x / 2 ^ 5 * 2 ^ 5).
    + rewrite Z.mul_pow2_bits_low by lia. reflexivity.
    + change (2 ^ 5) with 32. pose proof (Z.div_mod x 32 ltac:(lia)). lia.
  - destruct (Z.eq_dec v 0) as [-> | Hnz].
    + rewrite Z.bits_0. apply andb_false_r.
    + rewrite (Z.bits_above_log2 v n), andb_false_r; [reflexivity | lia |].
      apply Z.lt_le_trans with 5; [| lia].
      apply Z.log2_lt_pow2; lia.
Qed.

(** Shifting in five more bits: the low [n + 5] bits of the accumulator
    are its former low [n] bits followed by the value. *)
Lemma push5_low_bits (acc v n P : Z) :
  0 <= v < 32 -> 0 <= n -> n + 5 <= 32 ->
  acc mod 2 ^ n = P ->
  bor (shl acc 5) v mod 2 ^ (n + 5) = P * 32 + v.
Proof.
  intros Hv Hn Hn5 HP. unfold bor, shl.
  change (5 mod 32) with 5. rewrite Z.shiftl_mul_pow2 by lia. change (2 ^ 5) with 32.
  assert (Hpos : 0 < 2 ^ n) by (apply Z.pow_pos_nonneg; lia).
  set (x := ToInt32 (ToInt32 acc * 32)).
  assert (Hx : x mod 32 = 0).
  { unfold x. change 32 with (2 ^ 5) at 2. rewrite ToInt32_mod by lia.
    change (2 ^ 5) with 32. apply Z_mod_mult. }
  assert (Hx2 : x mod (32 * 2 ^ n) = (ToInt32 acc * 32) mod (32 * 2 ^ n)).
  { unfold x. replace (32 * 2 ^ n) with (2 ^ (n + 5))
      by (rewrite Z.pow_add_r by lia; change (2 ^ 5) with 32; lia).
    apply ToInt32_mod. lia. }
  assert (Hxr : - 2 ^ 31 <= x < 2 ^ 31) by apply ToInt32_range.
  clearbody x.
  rewrite (ToInt32_small x) by assumption.
  rewrite (ToInt32_small v) by lia.
  rewrite lor_low_bits by assumption.
  rewrite ToInt32_mod by lia.
  rewrite Z.pow_add_r by lia. change (2 ^ 5) with 32.
  rewrite (Z.mul_comm (2 ^ n) 32), Z.rem_mul_r by lia.
  rewrite Zplus_mod, Hx, Z.add_0_l, Z.mod_mod, (Z.mod_small v 32) by lia.
  pose proof (Z.div_mod x 32 ltac:(lia)) as Hdm.
  replace ((x + v) / 32) with (x / 32)
    by (apply Z.div_unique with v; lia).
  assert (Hq : (x / 32) mod 2 ^ n = acc mod 2 ^ n).
  { rewrite !Z.rem_mul_r in Hx2 by lia.
    rewrite Hx, Z_mod_mult, Z_div_mult in Hx2 by lia.
    rewrite <- (ToInt32_mod acc n) by lia. lia. }
  rewrite Hq, HP. lia.
Qed.

(** Reading a byte [m] bits above the bottom of the accumulator. *)
Lemma read_byte (a m Q : Z) :
  0 <= m -> m + 8 <= 32 ->
  a mod 2 ^ (m + 8) = Q ->
  band (sar a m) 255 = Q / 2 ^ m.
Proof.
  intros Hm Hm8 HQ. unfold band, sar.
  rewrite (Z.mod_small m 32) by lia.
  rewrite Z.shiftr_div_pow2 by lia.
  assert (Hpos : 0 < 2 ^ m) by (apply Z.pow_pos_nonneg; lia).
  pose proof (ToInt32_range a) as Hr.
  assert (Hr' : - 2 ^ 31 <= ToInt32 a / 2 ^ m < 2 ^ 31).
  { split.
    - apply Z.div_le_lower_bound; [lia |]. nia.
    - apply Z.div_lt_upper_bound; [lia |]. nia. }
  rewrite (ToInt32_small (_ / _)) by assumption.
  rewrite (ToInt32_small 255) by lia.
  change 255 with (Z.ones 8). rewrite Z.land_ones by lia.
  rewrite ToInt32_small by (pose proof (Z.mod_pos_bound (ToInt32 a / 2 ^ m) (2 ^ 8)); lia).
  rewrite <- HQ, <- (ToInt32_mod a (m + 8)) by lia.
  rewrite Z.pow_add_r, Z.rem_mul_r by lia.
  set (lo := ToInt32 a mod 2 ^ m). set (hi := (ToInt32 a / 2 ^ m) mod 2 ^ 8).
  assert (Hlo : 0 <= lo < 2 ^ m) by (apply Z.mod_pos_bound; lia).
  apply Z.div_unique with lo; lia.
Qed.

Lemma low_bits_of_low_bits (a m k Q : Z) :
  0 <= m <= k -> a mod 2 ^ k = Q -> a mod 2 ^ m = Q mod 2 ^ m.
Proof.
  intros Hm <-. symmetry. apply Z.mod_mod_divide.
  exists (2 ^ (k - m)). rewrite <- Z.pow_add_r by lia. f_equal. lia.
Qed.

End Int32.

(** ** Bit sequences *)

Section Bits.
Import CodecSpec.

Lemma number_from (bs : list bool) (n : Z) :
  fold_left (fun n (b : bool) => 2 * n + Z.b2z b) bs n
  = n * 2 ^ Z.of_nat (length bs) + number bs.
Proof.
  unfold number. revert n. induction bs as [| b bs IH]; intros n.
  - simpl. lia.
  - cbn [fold_left length]. rewrite IH, (IH (2 * 0 + Z.b2z b)).
    rewrite Nat2Z.inj_succ, Z.pow_succ_r by lia. lia.
Qed.

Lemma number_app (l1 l2 : list bool) :
  number (l1 ++ l2) = number l1 * 2 ^ Z.of_nat (length l2) + number l2.
Proof. unfold number at 1. rewrite fold_left_app. apply number_from. Qed.

Lemma number_bound (bs : list bool) : 0 <= number bs < 2 ^ Z.of_nat (length bs).
Proof.
  induction bs as [| b bs IH] using rev_ind.
  - simpl. unfold number. simpl. lia.
  - rewrite number_app, length_app, Nat2Z.inj_add, Z.pow_add_r by lia.
    cbn [length]. change (2 ^ Z.of_nat 1) with 2.
    change (number [b]) with (2 * 0 + Z.b2z b). destruct b; simpl Z.b2z; lia.
Qed.

Lemma number_bits5 (v : Z) : 0 <= v < 32 -> number (bits5 v) = v.
Proof.
  intros Hv.
  assert (Hall : Forall (fun v => number (bits5 v) = v) (map Z.of_nat (seq 0 32)))
    by (vm_compute; repeat constructor).
  rewrite Forall_forall in Hall. apply Hall.
  apply list_elem_of_In, in_map_iff. exists (Z.to_nat v).
  split; [lia | apply in_seq; lia].
Qed.

Lemma regroup8_short (bs : list bool) : (length bs < 8)%nat -> regroup8 bs = [].
Proof.
  intros H. do 8 (destruct bs as [| ? bs]; [reflexivity |]). simpl in H. lia.
Qed.

Lemma regroup8_full (h rest : list bool) :
  length h = 8%nat -> regroup8 (h ++ rest) = number h :: regroup8 rest.
Proof.
  intros H. do 8 (destruct h as [| ? h]; [discriminate |]).
  destruct h; [reflexivity | discriminate].
Qed.

Lemma regroup8_bytes (bs : list bool) : Forall (fun b => 0 <= b < 256) (regroup8 bs).
Proof.
  remember (length bs) as n eqn:Hn. revert bs Hn.
  induction n as [n IH] using lt_wf_ind. intros bs Hn.
  destruct (le_lt_dec 8 (length bs)) as [Hge | Hlt].
  - rewrite <- (take_drop 8 bs).
    assert (Hl : length (take 8 bs) = 8%nat) by (rewrite length_take; lia).
    rewrite regroup8_full by assumption. constructor.
    + pose proof (number_bound (take 8 bs)) as Hb. rewrite Hl in Hb.
      change (2 ^ Z.of_nat 8) with 256 in Hb. exact Hb.
    + apply (IH (length (drop 8 bs))); [rewrite length_drop; lia | reflexivity].
  - rewrite regroup8_short by assumption. constructor.
Qed.

End Bits.

(** ** The two loops of [npubToHex] *)

Section Loops.
Import CodecSpec.

Lemma drain_below (acc bits : Z) (bytes : list Z) :
  bits < 8 -> drain acc bits bytes = (bits, bytes).
Proof. intros H. simp drain. destruct (decide (bits >= 8)); [lia | reflexivity]. Qed.

Lemma drain_once (acc bits : Z) (bytes : list Z) :
  8 <= bits < 16 ->
  drain acc bits bytes = (bits - 8, bytes ++ [band (sar acc (bits - 8)) 255]).
Proof.
  intros H. simp drain. destruct (decide (bits >= 8)); [| lia].
  simpl. apply drain_below. lia.
Qed.

(** The regrouping loop, started with [p] as the bits not yet emitted. *)
Lemma convert_loop_regroups (values : list Z) :
  forall (acc : Z) (p : list bool) (bytes : list Z),
    Forall (fun v => 0 <= v < 32) values ->
    (length p < 8)%nat ->
    acc mod 2 ^ Z.of_nat (length p) = number p ->
    convert_loop values acc (Z.of_nat (length p)) bytes
    = bytes ++ regroup8 (p ++ concat (map bits5 values)).
Proof.
  induction values as [| v values IH]; intros acc p bytes Hvs Hp Hacc.
  - simpl. rewrite app_nil_r, regroup8_short by assumption. by rewrite app_nil_r.
  - inversion Hvs as [| ? ? Hv Hvs']; subst.
    cbn [convert_loop map concat].
    set (acc' := bor (shl acc 5) v).
    set (p' := p ++ bits5 v).
    assert (Hlen : length p' = (length p + 5)%nat) by (unfold p'; by rewrite length_app).
    assert (Hacc' : acc' mod 2 ^ (Z.of_nat (length p) + 5) = number p').
    { unfold acc', p'. rewrite number_app, number_bits5 by assumption.
      change (2 ^ Z.of_nat (length (bits5 v))) with 32.
      apply push5_low_bits; [assumption | lia | lia | assumption]. }
    rewrite (app_assoc p). fold p'.
    destruct (le_lt_dec 8 (length p')) as [Hfull | Hshort].
    + rewrite drain_once by lia.
      rewrite <- (take_drop 8 p').
      set (h := take 8 p') in *. set (t := drop 8 p') in *.
      assert (Hh : length h = 8%nat) by (unfold h; rewrite length_take; lia).
      assert (Ht : length t = (length p - 3)%nat) by (unfold t; rewrite length_drop; lia).
      assert (Hsplit : number p' = number h * 2 ^ Z.of_nat (length t) + number t).
      { rewrite <- number_app. unfold h, t. by rewrite take_drop. }
      pose proof (number_bound t) as Hbt.
      assert (Hpos : 0 < 2 ^ Z.of_nat (length t)) by (apply Z.pow_pos_nonneg; lia).
      replace (Z.of_nat (length p) + 5 - 8) with (Z.of_nat (length t)) by lia.
      rewrite (read_byte acc' (Z.of_nat (length t)) (number p')); [| lia | lia |].
      2:{ rewrite <- Hacc'. f_equal. f_equal. lia. }
      replace (number p' / 2 ^ Z.of_nat (length t)) with (number h)
        by (apply Z.div_unique with (number t); lia).
      rewrite IH; [| assumption | lia |].
      * rewrite <- (app_assoc h t), (regroup8_full h) by assumption.
        by rewrite <- app_assoc.
      * rewrite (low_bits_of_low_bits acc' _ (Z.of_nat (length p) + 5) (number p'));
          [| lia | assumption].
        rewrite Hsplit. rewrite Z.add_comm, Z.mod_add by lia.
        apply Z.mod_small. lia.
    + rewrite drain_below by lia.
      replace (Z.of_nat (length p) + 5) with (Z.of_nat (length p')) in * by lia.
      apply IH; assumption.
Qed.

Lemma hex_of_byte (b : Z) :
  0 <= b < 256 ->
  padStart 2 "0" (toString16 b)
  = String (hex_digit (b / 16)) (String (hex_digit (b mod 16)) EmptyString).
Proof.
  intros Hb.
  assert (Hall : forallb (fun b => String.eqb (padStart 2 "0" (toString16 b))
      (String (hex_digit (b / 16)) (String (hex_digit (b mod 16)) EmptyString)))
      (map Z.of_nat (seq 0 256)) = true) by (vm_compute; reflexivity).
  rewrite forallb_forall in Hall. apply String.eqb_eq, Hall.
  apply in_map_iff. exists (Z.to_nat b).
  split; [lia | apply in_seq; lia].
Qed.

Lemma hex_of_bytes_hex (bytes : list Z) :
  Forall (fun b => 0 <= b < 256) bytes -> hex_of_bytes bytes = hex bytes.
Proof.
  unfold hex_of_bytes. induction 1 as [| b bytes Hb _ IH]; [reflexivity |].
  cbn [map join hex]. rewrite hex_of_byte, IH by assumption. reflexivity.
Qed.

End Loops.

(** ** Characters and the alphabet *)

Section Alphabet.
Import CodecSpec.

Lemma indexOf_from_absent (s : list ascii) (c : ascii) (i : Z) :
  c ∉ s -> indexOf_from s c i = -1.
Proof.
  revert i. induction s as [| x s IH]; intros i Hc; [reflexivity |].
  simpl. destruct (Ascii.eqb_spec x c) as [-> | Hne].
  - exfalso. apply Hc. left.
  - apply IH. intros Hin. apply Hc. by right.
Qed.

Lemma indexOf_from_present (s : list ascii) (c : ascii) (i : Z) :
  c ∈ s -> i <= indexOf_from s c i < i + Z.of_nat (length s).
Proof.
  revert i. induction s as [| x s IH]; intros i Hc.
  - by apply elem_of_nil in Hc.
  - cbn [indexOf_from length]. destruct (Ascii.eqb_spec x c) as [-> | Hne]; [lia |].
    apply elem_of_cons in Hc as [-> | Hc]; [done |].
    specialize (IH (i + 1) Hc). lia.
Qed.

Lemma value_of_range (c : ascii) : c ∈ alphabet -> 0 <= value_of c < 32.
Proof. intros Hc. apply (indexOf_from_present _ c 0) in Hc. exact Hc. Qed.

Lemma value_of_absent (c : ascii) : c ∉ alphabet <-> value_of c = -1.
Proof.
  split; [apply indexOf_from_absent |].
  intros Hv Hc. apply value_of_range in Hc. lia.
Qed.

Lemma values_loop_all (data : list ascii) (values : list Z) :
  Forall (fun c => c ∈ alphabet) data ->
  values_loop data values = Return (values ++ map value_of data).
Proof.
  intros H. revert values.
  induction H as [| c data Hc _ IH]; intros values; simpl.
  - by rewrite app_nil_r.
  - fold (value_of c). pose proof (value_of_range c Hc).
    destruct (Z.eqb_spec (value_of c) (-1)); [lia |].
    rewrite IH, <- app_assoc. reflexivity.
Qed.

Lemma values_loop_some (data : list ascii) (values : list Z) :
  Exists (fun c => c ∉ alphabet) data ->
  values_loop data values = Throw "Invalid npub character".
Proof.
  intros H. revert values.
  induction H as [c data Hc | c data _ IH]; intros values; simpl; fold (value_of c).
  - apply value_of_absent in Hc. rewrite Hc. reflexivity.
  - destruct (value_of c =? -1); [reflexivity | apply IH].
Qed.

Lemma alphabet_dec (data : list ascii) :
  Forall (fun c => c ∈ alphabet) data \/ Exists (fun c => c ∉ alphabet) data.
Proof.
  induction data as [| c data [IH | IH]].
  - left. constructor.
  - destruct (decide (c ∈ alphabet)); [left | right]; by constructor.
  - right. by constructor.
Qed.

Lemma slice_0_neg_drop_last {A} (k : nat) (l : list A) :
  slice_0_neg k l = drop_last k l.
Proof.
  unfold slice_0_neg, drop_last.
  rewrite skipn_rev, rev_involutive. reflexivity.
Qed.

Lemma drop_last_bounds (k : nat) (l : list Z) :
  Forall (fun v => 0 <= v < 32) l -> Forall (fun v => 0 <= v < 32) (drop_last k l).
Proof.
  intros H. rewrite <- slice_0_neg_drop_last. by apply Forall_take.
Qed.

Lemma startsWith_npub1 (s : string) :
  startsWith s "npub1" = true <-> s = "npub1" +:+ slice 5 s.
Proof.
  split.
  - intros H.
    do 5 (destruct s as [| ? s]; [discriminate |];
          cbn [startsWith] in H;
          match type of H with
          | (if Ascii.eqb ?a ?b then _ else _) = _ =>
              destruct (Ascii.eqb_spec a b) as [-> | _]; [| discriminate]
          end).
    reflexivity.
  - intros H. rewrite H. reflexivity.
Qed.

(** Decoding once the prefix has been seen. *)
Lemma npubToHex_prefixed (data : string) :
  npubToHex ("npub1" +:+ data)
  = match values_loop (chars data) [] with
    | Throw msg => Throw msg
    | Return values => Return (hex_of_bytes (convert_loop (slice_0_neg 6 values) 0 0 []))
    end.
Proof. reflexivity. Qed.

Lemma npubToHex_in_alphabet (data : string) :
  Forall (fun c => c ∈ alphabet) (chars data) ->
  npubToHex ("npub1" +:+ data) = Return (decode_data (chars data)).
Proof.
  intros H. rewrite npubToHex_prefixed, values_loop_all by assumption.
  cbn [app]. f_equal. unfold decode_data.
  rewrite slice_0_neg_drop_last.
  set (vs := drop_last 6 (map value_of (chars data))).
  assert (Hvs : Forall (fun v => 0 <= v < 32) vs).
  { apply drop_last_bounds, Forall_fmap. eapply Forall_impl; [exact H |].
    intros c Hc. by apply value_of_range. }
  change (convert_loop vs 0 0 []) with (convert_loop vs 0 (Z.of_nat (length (@nil bool))) []).
  rewrite (convert_loop_regroups vs 0 [] []) by (try done; simpl; lia).
  cbn [app]. apply hex_of_bytes_hex, regroup8_bytes.
Qed.

End Alphabet.

(** ** The handlers, case by case *)

Section Handlers.

Lemma truthy_nonempty (v : option string) :
  truthy v = true <-> exists s, v = Some s /\ s <> EmptyString.
Proof.
  split.
  - destruct v as [[| a s] |]; try discriminate. intros _. by eexists.
  - intros (s & -> & Hs). by destruct s.
Qed.

Lemma or_else_truthy (v : option string) (s d : string) :
  v = Some s -> s <> EmptyString -> or_else v d = s.
Proof. intros -> Hs. by destruct s. Qed.

Lemma create_invite_store (token : string) (auth : option string) (b : body)
    (random : string) (now : Z) (inv : store) :
  (create_invite token auth b random now inv).1.2 = inv \/
  exists lbl,
    (create_invite token auth b random now inv).1.2
    = <[random := {| label := lbl; createdAt := now; used := false;
                     usedBy := None; usedAt := None |}]> inv.
Proof.
  unfold create_invite.
  destruct (negb (truthy auth) || negb (strict_eq auth ("Bearer " +:+ token)));
    [by left |].
  destruct b; [by left | by left | right; by eexists].
Qed.

Lemma register_finish_cases (inv : store) (p : pending) (reply : listener_reply)
    (now : Z) :
  (exists msg, register_finish inv p reply now = (Json 500 (Error msg), inv)) \/
  (registerOnListener reply = Return tt /\
   exists r,
     inv !! p_invite p = Some r /\
     register_finish inv p reply now
     = (Json 200 (Registered (c_webhookUrl (p_call p)) (c_webhookSecret (p_call p))),
        <[p_invite p := mark_used r (p_storeName p) now]> inv)).
Proof.
  unfold register_finish.
  destruct (registerOnListener reply) as [[] | msg]; [| left; by eexists].
  destruct (inv !! p_invite p) as [r |] eqn:Hr; [| left; by eexists].
  right. split; [reflexivity |]. by exists r.
Qed.

(** What must hold for the first half of a registration to reach the
    listener call. *)
Lemma register_start_awaiting (inv : store) (b : body) (random : string)
    (p : pending) (effects : list effect) :
  register_start inv b random = (Awaiting p, effects) ->
  exists f tok r,
    b = JsonValue f /\ f_invite f = Some tok /\ tok <> EmptyString /\
    p_invite p = tok /\ inv !! tok = Some r /\ used r = false /\
    truthy (f_npub f) = true /\ truthy (f_wooUrl f) = true /\
    truthy (f_storeName f) = true /\
    effects = [RandomBytes 32; CallListener (p_call p)].
Proof.
  unfold register_start. destruct b as [msg | | f]; try discriminate.
  destruct (truthy (f_invite f)) eqn:Hinv; [| discriminate].
  apply truthy_nonempty in Hinv as (tok & Hf & Htok).
  unfold invite_key. rewrite (or_else_truthy _ tok "" Hf Htok).
  destruct (inv !! tok) as [r |] eqn:Hr; cycle 1.
  { rewrite bool_decide_eq_false_2 by (by intros [? ?]). discriminate. }
  rewrite bool_decide_eq_true_2 by (by eexists). cbn [negb orb fmap option_fmap option_map default].
  destruct (used r) eqn:Hu; [discriminate |].
  destruct (truthy (f_npub f)) eqn:Hn; [| discriminate].
  destruct (truthy (f_wooUrl f)) eqn:Hw; [| discriminate].
  destruct (truthy (f_storeName f)) eqn:Hs; [| discriminate].
  cbn [negb orb].
  destruct (npubToHex _) as [h | ?]; [| discriminate].
  destruct (negb _); [discriminate |].
  intros [= <- <-]. exists f, tok, r. repeat split; done.
Qed.

Lemma register_start_consumed (inv : store) (f : fields) (tok random : string) :
  f_invite f = Some tok -> tok <> EmptyString -> consumed inv tok ->
  register_start inv (JsonValue f) random
  = (Responded (Json 403 (Error "Invite already used")), []).
Proof.
  intros Hf Htok (r & Hr & Hu). unfold register_start, invite_key.
  rewrite (or_else_truthy _ tok "" Hf Htok), Hr.
  rewrite (proj2 (truthy_nonempty _)) by (by exists tok).
  rewrite bool_decide_eq_true_2 by (by eexists).
  cbn. by rewrite Hu.
Qed.

Lemma register_start_unused (inv : store) (f : fields) (tok random : string) :
  presents_unused inv f tok ->
  register_start inv (JsonValue f) random
  = if negb (truthy (f_npub f)) || negb (truthy (f_wooUrl f))
       || negb (truthy (f_storeName f))
    then (Responded
            (Json 400 (Error "Missing required fields: npub, wooUrl, storeName")),
          [])
    else
      match npubToHex (or_else (f_npub f) "") with
      | Throw _ => (Responded (Json 400 (Error "Invalid npub format")), [])
      | Return pubkeyHex =>
          if negb (String.length pubkeyHex =? 64)%nat
          then (Responded
                  (Json 400 (Error "Invalid npub: decoded key is wrong length")),
                [])
          else
            let call := {| c_pubkey := pubkeyHex;
                           c_name := or_else (f_storeName f) "";
                           c_webhookUrl :=
                             strip_trailing_slash (or_else (f_wooUrl f) "")
                             +:+ "/wp-json/woo-nostr-market/v1/order-webhook";
                           c_webhookSecret := random |} in
            (Awaiting {| p_invite := tok;
                         p_storeName := or_else (f_storeName f) "";
                         p_call := call |},
             [RandomBytes 32; CallListener call])
      end.
Proof.
  intros (Hf & Htok & r & Hr & Hu). unfold register_start, invite_key.
  rewrite (or_else_truthy _ tok "" Hf Htok), Hr.
  rewrite (proj2 (truthy_nonempty _)) by (by exists tok).
  rewrite bool_decide_eq_true_2 by (by eexists).
  cbn [negb orb fmap option_fmap option_map default]. rewrite Hu. reflexivity.
Qed.

End Handlers.

(** ** The store along a run of the server *)

Section Runs.
Variable token : string.

Lemma step_store_change (s : server) (e : event) :
  store_change s e (invites (step token s e).1).
Proof.
  destruct e as [req random now | id reply now]; cbn [step].
  - unfold handle_request.
    destruct (r_method req) eqn:Hm; try (by apply Unchanged).
    + destruct (String.eqb_spec (r_pathname req) "/api/invites");
        [by apply Unchanged |].
      destruct (String.eqb (r_pathname req) "/api/health"); by apply Unchanged.
    + destruct (String.eqb_spec (r_pathname req) "/api/invites") as [Hp | Hp].
      * cbn [invites].
        destruct (create_invite_store token (r_authorization req) (r_body req)
                    random now (invites s)) as [H | [lbl H]];
          destruct (create_invite _ _ _ _ _ _) as [[r inv'] eff];
          cbn [fst snd invites] in *.
        -- by apply Unchanged.
        -- by eapply Created.
      * destruct (String.eqb (r_pathname req) "/api/register");
          [| by apply Unchanged].
        cbn [invites].
        destruct (register_start _ _ _) as [[r | p] eff]; by apply Unchanged.
  - destruct (awaiting s !! id) as [p |] eqn:Hp; [| by apply Unchanged].
    destruct (register_finish_cases (invites s) p reply now)
      as [[msg H] | (Hok & r & Hr & H)]; rewrite H; cbn [fst invites].
    + by apply Unchanged.
    + by eapply Marked.
Qed.

End Runs.

(** ** The model at work *)

Example npubToHex_generator : npubToHex generator_npub = Return generator_hex.
Proof. vm_compute. reflexivity. Qed.

Example npubToHex_upper_case :
  npubToHex "npub1QPZRY9X8" = Throw "Invalid npub character".
Proof. vm_compute. reflexivity. Qed.

Example npubToHex_checksum_only : npubToHex "npub1qqqqqq" = Return EmptyString.
Proof. vm_compute. reflexivity. Qed.

(** The accumulator does wrap: seven values fill 35 bits. *)
Example accumulator_wraps :
  fold_left (fun acc v => bor (shl acc 5) v) [31; 31; 31; 31; 31; 31; 31] 0 = -1.
Proof. vm_compute. reflexivity. Qed.

Example strip_trailing_slash_once :
  strip_trailing_slash "https://shop.example//" = "https://shop.example/"%string /\
  strip_trailing_slash "https://shop.example" = "https://shop.example"%string.
Proof. split; reflexivity. Qed.

Example registerOnListener_refused :
  registerOnListener Scenario.refused
  = Throw "Listener registration failed: 409 duplicate".
Proof. vm_compute. reflexivity. Qed.

(** ** The identity codec *)

(** C1: decoding the npub of the secp256k1 generator point gives
    79be667e...16f81798, and for every identifier made of the [npub1]
    prefix followed by alphabet characters, [npubToHex] returns what the
    specified decoding returns: each character mapped to its 5-bit value,
    the last six values dropped, the rest regrouped into bytes most
    significant bit first, leftover bits discarded. *)
Theorem npubToHex_decodes :
  npubToHex generator_npub = Return generator_hex /\
  forall data : string,
    Forall (fun c => c ∈ CodecSpec.alphabet) (chars data) ->
    npubToHex ("npub1" +:+ data) = Return (CodecSpec.decode_data (chars data)).
Proof.
  split; [vm_compute; reflexivity | apply npubToHex_in_alphabet].
Qed.

Lemma npubToHex_decodes_witness :
  Forall (fun c => c ∈ CodecSpec.alphabet) (chars "qpzry9x8gf2tvdw0") /\
  npubToHex ("npub1" +:+ "qpzry9x8gf2tvdw0")
  = Return (CodecSpec.decode_data (chars "qpzry9x8gf2tvdw0")).
Proof.
  assert (H : Forall (fun c => c ∈ CodecSpec.alphabet) (chars "qpzry9x8gf2tvdw0"))
    by (apply (bool_decide_unpack _); vm_compute; exact I).
  split; [exact H | exact (proj2 npubToHex_decodes "qpzry9x8gf2tvdw0" H)].
Defined.

(** C9: on every input that does not carry the [npub1] prefix, and so on
    every string of exactly 64 hexadecimal characters, [npubToHex] returns
    its input unchanged. *)
Theorem npubToHex_identity_without_prefix :
  (forall s : string,
     (~ exists data, s = "npub1" +:+ data) -> npubToHex s = Return s) /\
  (forall s : string, CodecSpec.is_hex64 s = true -> npubToHex s = Return s).
Proof.
  assert (Hno : forall s, startsWith s "npub1" = false -> npubToHex s = Return s).
  { intros s H. unfold npubToHex. by rewrite H. }
  split.
  - intros s Hs. apply Hno. destruct (startsWith s "npub1") eqn:E; [| reflexivity].
    exfalso. apply Hs. exists (slice 5 s). by apply startsWith_npub1.
  - intros s Hs. apply Hno.
    unfold CodecSpec.is_hex64 in Hs. apply andb_true_iff in Hs as [Hlen Hhex].
    destruct s as [| c s]; [discriminate |].
    cbn [chars list_ascii_of_string forallb] in Hhex.
    apply andb_true_iff in Hhex as [Hc _].
    cbn [startsWith]. destruct (Ascii.eqb_spec c "n") as [-> | _]; [| reflexivity].
    vm_compute in Hc. discriminate.
Qed.

Lemma npubToHex_identity_without_prefix_witness :
  (~ exists data, "abc"%string = "npub1" +:+ data) /\
  CodecSpec.is_hex64 generator_hex = true /\
  npubToHex "abc" = Return "abc"%string /\
  npubToHex generator_hex = Return generator_hex.
Proof.
  assert (H1 : ~ exists data, "abc"%string = "npub1" +:+ data)
    by (intros [data H]; discriminate H).
  assert (H2 : CodecSpec.is_hex64 generator_hex = true) by (vm_compute; reflexivity).
  split; [exact H1 |]. split; [exact H2 |]. split.
  - exact (proj1 npubToHex_identity_without_prefix "abc"%string H1).
  - exact (proj2 npubToHex_identity_without_prefix generator_hex H2).
Defined.

(** C6: [npubToHex] throws exactly on the inputs that carry the [npub1]
    prefix and have, after it, a character outside the alphabet; and a
    registration whose identifier decodes to anything but 64 characters is
    answered "Invalid npub: decoded key is wrong length" with the store
    untouched, no secret drawn and no listener call. *)
Theorem npubToHex_throws_iff_and_length_checked :
  (forall s : string,
     (exists msg, npubToHex s = Throw msg) <->
     (exists data, s = "npub1" +:+ data /\
                   exists c, c ∈ chars data /\ c ∉ CodecSpec.alphabet)) /\
  (forall (inv : store) (f : fields) (tok npub wooUrl storeName pubkeyHex : string)
          (random : string) (reply : listener_reply) (now : Z),
     presents_unused inv f tok ->
     f_npub f = Some npub -> npub <> EmptyString ->
     f_wooUrl f = Some wooUrl -> wooUrl <> EmptyString ->
     f_storeName f = Some storeName -> storeName <> EmptyString ->
     npubToHex npub = Return pubkeyHex ->
     String.length pubkeyHex <> 64%nat ->
     register inv (JsonValue f) random reply now
     = (Json 400 (Error "Invalid npub: decoded key is wrong length"), inv, [])).
Proof.
  split.
  - intros s. split.
    + intros [msg H]. unfold npubToHex in H.
      destruct (startsWith s "npub1") eqn:Hp; [| discriminate].
      apply startsWith_npub1 in Hp. exists (slice 5 s). split; [exact Hp |].
      cbn [negb] in H.
      destruct (alphabet_dec (chars (slice 5 s))) as [Hall | Hex].
      * rewrite values_loop_all in H by assumption. discriminate.
      * apply Exists_exists in Hex. exact Hex.
    + intros (data & -> & c & Hc & Hnot). exists "Invalid npub character"%string.
      rewrite npubToHex_prefixed, values_loop_some; [reflexivity |].
      apply Exists_exists. by exists c.
  - intros inv f tok npub wooUrl storeName pubkeyHex random reply now
      Hinv Hn Hn' Hw Hw' Hs Hs' Hdec Hlen.
    unfold register. rewrite (register_start_unused inv f tok random Hinv).
    rewrite (proj2 (truthy_nonempty (f_npub f))) by (by exists npub).
    rewrite (proj2 (truthy_nonempty (f_wooUrl f))) by (by exists wooUrl).
    rewrite (proj2 (truthy_nonempty (f_storeName f))) by (by exists storeName).
    cbn [negb orb]. rewrite (or_else_truthy _ npub "" Hn Hn'), Hdec.
    apply Nat.eqb_neq in Hlen. rewrite Hlen. reflexivity.
Qed.

Lemma npubToHex_throws_iff_and_length_checked_witness :
  presents_unused Scenario.one_unused Scenario.short_key Scenario.tok /\
  npubToHex "abcdef" = Return "abcdef"%string /\
  register Scenario.one_unused (JsonValue Scenario.short_key) "aa" Scenario.accepted 1001
  = (Json 400 (Error "Invalid npub: decoded key is wrong length"),
     Scenario.one_unused, []).
Proof.
  assert (H : presents_unused Scenario.one_unused Scenario.short_key Scenario.tok).
  { split; [reflexivity |]. split; [discriminate |].
    exists Scenario.unused_invite. split; [| reflexivity].
    apply lookup_singleton_eq. }
  split; [exact H |]. split; [reflexivity |].
  apply (proj2 npubToHex_throws_iff_and_length_checked
           Scenario.one_unused Scenario.short_key Scenario.tok
           "abcdef" "https://shop.example" "Alice" "abcdef" "aa"
           Scenario.accepted 1001 H);
    first [reflexivity | discriminate].
Defined.

(** ** Admin authentication *)

Lemma admin_check (token : string) (auth : option string) :
  negb (truthy auth) || negb (strict_eq auth ("Bearer " +:+ token)) = false
  <-> admin_header_ok token auth.
Proof.
  unfold admin_header_ok. split.
  - intros H. apply orb_false_iff in H as [Ht He].
    apply negb_false_iff in Ht, He.
    apply truthy_nonempty in Ht as (a & -> & Ha).
    apply String.eqb_eq in He. by exists a.
  - intros (a & -> & Ha & Heq). apply orb_false_iff. split; apply negb_false_iff.
    + apply truthy_nonempty. by exists a.
    + by apply String.eqb_eq.
Qed.

(** C8: a [POST /api/invites] whose [Authorization] header is absent, or is
    not exactly [Bearer <token>], is answered 401 Unauthorized whatever the
    body is, and leaves the store as it was; the header that is exactly
    [Bearer <token>] is never answered 401. *)
Theorem create_invite_unauthorized :
  (forall (token : string) (auth : option string),
     auth = None \/ auth <> Some ("Bearer " +:+ token) ->
     (forall (b : body) (random : string) (now : Z) (inv : store),
        create_invite token auth b random now inv = (unauthorized, inv, [])) /\
     (forall (s : server) (b : body) (random : string) (now : Z),
        step token s
          (Request {| r_method := POST; r_pathname := "/api/invites";
                      r_authorization := auth; r_body := b |} random now)
        = ({| invites := invites s; awaiting := awaiting s;
              next_request := S (next_request s) |},
           [Responds (next_request s) unauthorized]))) /\
  (forall (token : string) (b : body) (random : string) (now : Z) (inv : store),
     (create_invite token (Some ("Bearer " +:+ token)) b random now inv).1.1
     <> unauthorized).
Proof.
  split.
  - intros token auth Hauth.
    assert (Hcheck : negb (truthy auth)
                     || negb (strict_eq auth ("Bearer " +:+ token)) = true).
    { destruct (negb (truthy auth) || negb (strict_eq auth ("Bearer " +:+ token)))
        eqn:E; [reflexivity |].
      apply admin_check in E as (a & -> & _ & ->). by destruct Hauth. }
    assert (Hcreate : forall b random now inv,
               create_invite token auth b random now inv = (unauthorized, inv, [])).
    { intros. unfold create_invite. by rewrite Hcheck. }
    split; [exact Hcreate |].
    intros s b random now. cbn [step]. unfold handle_request.
    cbn [r_method r_pathname r_authorization r_body invites awaiting next_request].
    rewrite String.eqb_refl, Hcreate. reflexivity.
  - intros token b random now inv. unfold create_invite.
    rewrite (proj2 (admin_check token (Some ("Bearer " +:+ token))))
      by (eexists; repeat split; discriminate).
    destruct b; discriminate.
Qed.

Lemma create_invite_unauthorized_witness :
  (Some "Bearer wrong"%string <> Some ("Bearer " +:+ Scenario.admin_token)) /\
  create_invite Scenario.admin_token (Some "Bearer wrong"%string)
    (JsonValue Scenario.no_fields) Scenario.tok 1000 ∅
  = (unauthorized, ∅, []).
Proof.
  assert (H : Some "Bearer wrong"%string <> Some ("Bearer " +:+ Scenario.admin_token))
    by discriminate.
  split; [exact H |].
  exact (proj1 (proj1 create_invite_unauthorized Scenario.admin_token
                  (Some "Bearer wrong"%string) (or_intror H))
           (JsonValue Scenario.no_fields) Scenario.tok 1000 ∅).
Defined.

(** ** The registration workflow *)

Lemma register_cases (inv : store) (b : body) (random : string)
    (reply : listener_reply) (now : Z) :
  (exists r effects,
     register_start inv b random = (Responded r, effects) /\
     register inv b random reply now = (r, inv, effects)) \/
  (exists p effects,
     register_start inv b random = (Awaiting p, effects) /\
     register inv b random reply now
     = ((register_finish inv p reply now).1, (register_finish inv p reply now).2,
        effects)).
Proof.
  unfold register. destruct (register_start inv b random) as [[r | p] effects].
  - left. by exists r, effects.
  - right. exists p, effects. split; [reflexivity |].
    by destruct (register_finish inv p reply now).
Qed.

Lemma register_start_responses (inv : store) (b : body) (random : string)
    (r : response) (effects : list effect) :
  register_start inv b random = (Responded r, effects) ->
  status_of r <> Some 200 /\ effects = [].
Proof.
  unfold register_start. intros H.
  repeat match type of H with
         | (match ?x with _ => _ end) = _ => destruct x
         | (if ?x then _ else _) = _ => destruct x
         end;
    try discriminate; inversion H; subst; split; (discriminate || reflexivity).
Qed.

(** C7, as the code has it: a registration that presents a valid unused
    invite but lacks [npub], [wooUrl] or [storeName] is answered 400 with
    the one fixed message that lists all three required fields, whichever
    of them is missing; the store is untouched and the listener is not
    called. *)
Theorem missing_field_rejected :
  forall (inv : store) (f : fields) (tok random : string)
         (reply : listener_reply) (now : Z),
    presents_unused inv f tok ->
    f_npub f = None \/ f_wooUrl f = None \/ f_storeName f = None ->
    register inv (JsonValue f) random reply now
    = (Json 400 (Error "Missing required fields: npub, wooUrl, storeName"),
       inv, []).
Proof.
  intros inv f tok random reply now Hinv Hmiss.
  unfold register. rewrite (register_start_unused inv f tok random Hinv).
  assert (Hcheck : negb (truthy (f_npub f)) || negb (truthy (f_wooUrl f))
                   || negb (truthy (f_storeName f)) = true).
  { destruct Hmiss as [-> | [-> | ->]]; cbn [truthy negb orb];
      rewrite ?orb_true_r; reflexivity. }
  by rewrite Hcheck.
Qed.

Lemma missing_field_rejected_witness :
  presents_unused Scenario.one_unused Scenario.without_npub Scenario.tok /\
  f_npub Scenario.without_npub = None /\
  register Scenario.one_unused (JsonValue Scenario.without_npub) "aa"
    Scenario.accepted 1001
  = (Json 400 (Error "Missing required fields: npub, wooUrl, storeName"),
     Scenario.one_unused, []).
Proof.
  assert (H : presents_unused Scenario.one_unused Scenario.without_npub Scenario.tok).
  { split; [reflexivity |]. split; [discriminate |].
    exists Scenario.unused_invite. split; [| reflexivity].
    apply lookup_singleton_eq. }
  split; [exact H |]. split; [reflexivity |].
  exact (missing_field_rejected Scenario.one_unused Scenario.without_npub
           Scenario.tok "aa" Scenario.accepted 1001 H (or_introl eq_refl)).
Defined.

(** C7, as stated, fails: a request that lacks only [npub] and one that
    lacks only [storeName] get the very same error, so the error does not
    name the first missing field. *)
Lemma missing_field_not_named :
  register_start Scenario.one_unused (JsonValue Scenario.without_npub) "aa"
  = (Responded
       (Json 400 (Error "Missing required fields: npub, wooUrl, storeName")), []) /\
  register_start Scenario.one_unused (JsonValue Scenario.without_storeName) "aa"
  = (Responded
       (Json 400 (Error "Missing required fields: npub, wooUrl, storeName")), []) /\
  WorkflowSpec.first_missing Scenario.without_npub = Some "npub"%string /\
  WorkflowSpec.first_missing Scenario.without_storeName = Some "storeName"%string.
Proof. repeat split; vm_compute; reflexivity. Qed.

(** ** The race on one invite *)

(** C2 does not hold of the handler: when a second registration presenting
    the same fresh invite is read while the first is still awaiting the
    listener, both pass the [used] check, the listener is called twice and
    both requests are answered 200. *)
Lemma race_both_registrations_succeed :
  registrations (run Scenario.admin_token initial Scenario.race).2 = [1; 2]%nat /\
  map fst (listener_calls (run Scenario.admin_token initial Scenario.race).2)
  = [1; 2]%nat /\
  (run Scenario.admin_token initial Scenario.race).2
  = [ Performs 0 (RandomBytes 16);
      Responds 0
        (Json 200
           (InviteCreated Scenario.tok
              ("https://nostr.bitcoinbutlers.com?invite=" +:+ Scenario.tok)));
      Performs 1 (RandomBytes 32);
      Performs 1
        (CallListener
           {| c_pubkey := generator_hex; c_name := "Alice";
              c_webhookUrl :=
                "https://shop.example/wp-json/woo-nostr-market/v1/order-webhook";
              c_webhookSecret := "aa" |});
      Performs 2 (RandomBytes 32);
      Performs 2
        (CallListener
           {| c_pubkey := generator_hex; c_name := "Bob";
              c_webhookUrl :=
                "https://shop.example/wp-json/woo-nostr-market/v1/order-webhook";
              c_webhookSecret := "bb" |});
      Responds 1
        (Json 200
           (Registered
              "https://shop.example/wp-json/woo-nostr-market/v1/order-webhook" "aa"));
      Responds 2
        (Json 200
           (Registered
              "https://shop.example/wp-json/woo-nostr-market/v1/order-webhook" "bb")) ].
Proof. repeat split; vm_compute; reflexivity. Qed.

(** Handled one after the other, the same two registrations end as the
    invite intends: the second is answered "Invite already used". *)
Example sequence_second_registration_refused :
  registrations (run Scenario.admin_token initial Scenario.in_sequence).2 = [1]%nat /\
  In (Responds 2 (Json 403 (Error "Invite already used")))
     (run Scenario.admin_token initial Scenario.in_sequence).2.
Proof. split; [vm_compute; reflexivity | vm_compute; tauto]. Qed.

(** * Properties of the server on requests as they arrive *)

(** ** The handlers on arbitrary bodies *)

Section WireHandlers.

Lemma json_truthy_false (v : JSON.value) : JSON.truthy v = false <-> JSON.falsy v.
Proof.
  unfold JSON.falsy. split.
  - destruct v as [| | [] | p | s | |]; cbn; intros H; try discriminate; auto.
    + apply negb_false_iff, String.eqb_eq in H. subst. auto.
    + apply negb_false_iff, String.eqb_eq in H. subst. auto 6.
  - intros [-> | [-> | [-> | [-> | ->]]]]; reflexivity.
Qed.


Lemma wire_register_start_presented (inv : Wire.store) (v : JSON.value)
    (key random : string) :
  Wire.presents_unused inv v key ->
  Wire.register_start inv (Wire.Parsed v) random
  = Wire.validate_and_call v key random.
Proof.
  intros (invite & Hp & Ht & Hk & r & Hr & Hu). unfold Wire.register_start.
  by rewrite Hp, Ht, Hk, Hr, Hu.
Qed.

(** What the checks of the fields let through. *)
Lemma wire_validate_awaiting (v : JSON.value) (key random : string)
    (p : Wire.pending) (effects : list Wire.effect) :
  Wire.validate_and_call v key random = (Wire.Awaiting p, effects) <->
  exists npub wooUrl pubkeyHex,
    JSON.field v "npub" = JSON.Str npub /\
    JSON.field v "wooUrl" = JSON.Str wooUrl /\ wooUrl <> EmptyString /\
    JSON.truthy (JSON.field v "storeName") = true /\
    npubToHex npub = Return pubkeyHex /\ String.length pubkeyHex = 64%nat /\
    let call := {| Wire.c_pubkey := pubkeyHex;
                   Wire.c_name := JSON.field v "storeName";
                   Wire.c_webhookUrl :=
                     strip_trailing_slash wooUrl
                     +:+ "/wp-json/woo-nostr-market/v1/order-webhook";
                   Wire.c_webhookSecret := random |} in
    p = {| Wire.p_invite := key; Wire.p_storeName := JSON.field v "storeName";
           Wire.p_call := call |} /\
    effects = [Wire.RandomBytes 32; Wire.CallListener call].
Proof.
  unfold Wire.validate_and_call. split.
  - destruct (JSON.truthy (JSON.field v "npub")) eqn:Hn; [| discriminate].
    destruct (JSON.truthy (JSON.field v "wooUrl")) eqn:Hw; [| discriminate].
    destruct (JSON.truthy (JSON.field v "storeName")) eqn:Hs; [| discriminate].
    cbn [negb orb].
    destruct (JSON.field v "npub") as [| | | | npub | |] eqn:En; try discriminate.
    cbn [Wire.decode].
    destruct (npubToHex npub) as [h |] eqn:Hdec; [| discriminate].
    destruct (String.length h =? 64)%nat eqn:Hlen; [| discriminate].
    cbn [negb].
    destruct (JSON.field v "wooUrl") as [| | | | wooUrl | |] eqn:Ew; try discriminate.
    cbn [Wire.without_trailing_slash]. intros [= <- <-].
    exists npub, wooUrl, h. apply Nat.eqb_eq in Hlen.
    repeat split; try done.
    intros ->. discriminate.
  - intros (npub & wooUrl & h & -> & -> & Hw & -> & Hdec & Hlen & -> & ->).
    cbn [JSON.truthy Wire.decode Wire.without_trailing_slash].
    apply Nat.eqb_eq in Hlen. rewrite Hdec, Hlen.
    assert (String.eqb npub "" = false) as ->.
    { apply String.eqb_neq. intros ->. cbn in Hdec. injection Hdec as <-.
      discriminate. }
    apply String.eqb_neq in Hw. rewrite Hw. reflexivity.
Qed.

Lemma wire_validate_valid (v : JSON.value)
    (key random npub wooUrl pubkeyHex : string) :
  JSON.field v "npub" = JSON.Str npub ->
  JSON.field v "wooUrl" = JSON.Str wooUrl -> wooUrl <> EmptyString ->
  JSON.truthy (JSON.field v "storeName") = true ->
  npubToHex npub = Return pubkeyHex -> String.length pubkeyHex = 64%nat ->
  let call := Wire.registration_call pubkeyHex (JSON.field v "storeName")
                wooUrl random in
  Wire.validate_and_call v key random
  = (Wire.Awaiting {| Wire.p_invite := key;
                      Wire.p_storeName := JSON.field v "storeName";
                      Wire.p_call := call |},
     [Wire.RandomBytes 32; Wire.CallListener call]).
Proof.
  intros Hn Hw Hw' Hs Hdec Hlen call. apply wire_validate_awaiting.
  exists npub, wooUrl, pubkeyHex. repeat split; assumption.
Qed.

(** What must hold for the first half of a registration to reach the
    listener call. *)
Lemma wire_register_start_awaiting (inv : Wire.store) (b : Wire.body)
    (random : string) (p : Wire.pending) (effects : list Wire.effect) :
  Wire.register_start inv b random = (Wire.Awaiting p, effects) ->
  exists v key,
    b = Wire.Parsed v /\ Wire.presents_unused inv v key /\
    Wire.p_invite p = key /\
    Wire.validate_and_call v key random = (Wire.Awaiting p, effects) /\
    effects = [Wire.RandomBytes 32; Wire.CallListener (Wire.p_call p)].
Proof.
  unfold Wire.register_start. destruct b as [msg | v]; [discriminate |].
  destruct (JSON.prop v "invite") as [invite |] eqn:Hp; [| discriminate].
  destruct (JSON.truthy invite) eqn:Ht; [| discriminate]. cbn [negb].
  destruct (JSON.toString invite) as [key |] eqn:Hk; [| discriminate].
  destruct (inv !! key) as [r |] eqn:Hr; [| discriminate].
  destruct (Wire.used r) eqn:Hu; [discriminate |].
  intros H. exists v, key. split; [reflexivity |].
  split; [by exists invite; repeat split; try done; exists r |].
  pose proof H as H'.
  apply wire_validate_awaiting in H' as (? & ? & ? & _ & _ & _ & _ & _ & _ & -> & ->).
  by repeat split.
Qed.



Lemma wire_register_finish_cases (inv : Wire.store) (p : Wire.pending)
    (reply : listener_reply) (now : Z) :
  (exists msg,
     registerOnListener reply = Throw msg /\
     Wire.register_finish inv p reply now = (Wire.Json 500 (Wire.Error msg), inv)) \/
  (registerOnListener reply = Return tt /\ inv !! Wire.p_invite p = None /\
   exists msg,
     Wire.register_finish inv p reply now = (Wire.Json 500 (Wire.Error msg), inv)) \/
  (registerOnListener reply = Return tt /\
   exists r,
     inv !! Wire.p_invite p = Some r /\
     let inv' := <[Wire.p_invite p := Wire.mark_used r (Wire.p_storeName p) now]> inv in
     (JSON.prints (Wire.p_storeName p) /\
      Wire.register_finish inv p reply now
      = (Wire.Json 200 (Wire.Registered (Wire.c_webhookUrl (Wire.p_call p))
                          (Wire.c_webhookSecret (Wire.p_call p))), inv')) \/
     (exists msg,
        JSON.toString (Wire.p_storeName p) = Throw msg /\
        Wire.register_finish inv p reply now
        = (Wire.Json 500 (Wire.Error msg), inv'))).
Proof.
  unfold Wire.register_finish.
  destruct (registerOnListener reply) as [[] | msg]; [| left; by eexists].
  destruct (inv !! Wire.p_invite p) as [r |] eqn:Hr;
    [| right; left; split; [done | split; [done | by eexists]]].
  right. right. split; [reflexivity |]. exists r. split; [reflexivity |].
  unfold JSON.prints.
  destruct (JSON.toString (Wire.p_storeName p)) as [s | msg];
    [left; split; [by exists s | reflexivity] | right; by exists msg].
Qed.

Lemma wire_register_cases (inv : Wire.store) (b : Wire.body) (random : string)
    (reply : listener_reply) (now : Z) :
  (exists r effects,
     Wire.register_start inv b random = (Wire.Responded r, effects) /\
     Wire.register inv b random reply now = (r, inv, effects)) \/
  (exists p effects,
     Wire.register_start inv b random = (Wire.Awaiting p, effects) /\
     Wire.register inv b random reply now
     = ((Wire.register_finish inv p reply now).1,
        (Wire.register_finish inv p reply now).2, effects)).
Proof.
  unfold Wire.register.
  destruct (Wire.register_start inv b random) as [[r | p] effects].
  - left. by exists r, effects.
  - right. exists p, effects. split; [reflexivity |].
    by destruct (Wire.register_finish inv p reply now).
Qed.

Lemma wire_create_invite_store (token : string) (auth : option string)
    (b : Wire.body) (random : string) (now : Z) (inv : Wire.store) :
  (Wire.create_invite token auth b random now inv).1.2 = inv \/
  exists lbl,
    (Wire.create_invite token auth b random now inv).1.2
    = <[random := {| Wire.label := lbl; Wire.createdAt := now; Wire.used := false;
                     Wire.usedBy := None; Wire.usedAt := None |}]> inv.
Proof.
  unfold Wire.create_invite.
  destruct (negb (truthy auth) || negb (strict_eq auth ("Bearer " +:+ token)));
    [by left |].
  destruct b as [msg | v]; [by left |].
  destruct (JSON.prop v "label") as [lbl |]; [| by left].
  right. exists (JSON.or_else lbl (JSON.Str "")).
  by destruct (JSON.toString _).
Qed.

End WireHandlers.

(** ** The store along a run, on arbitrary requests *)

Section WireRuns.
Variable token : string.

Lemma wire_route_store (s s' : Wire.server) (id : nat) (m : method)
    (pathname : string) (auth : option string) (b : Wire.body) (random : string)
    (now : Z) (out : list Wire.output) :
  Wire.route token s id m pathname auth b random now = (s', out) ->
  Wire.invites s' = Wire.invites s \/
  (m = POST /\ pathname = "/api/invites"%string /\
   exists lbl,
     Wire.invites s'
     = <[random := {| Wire.label := lbl; Wire.createdAt := now; Wire.used := false;
                      Wire.usedBy := None; Wire.usedAt := None |}]> (Wire.invites s)).
Proof.
  unfold Wire.route. destruct m.
  - destruct (String.eqb pathname "/api/invites"); [intros [= <- _]; by left |].
    destruct (String.eqb pathname "/api/health"); intros [= <- _]; by left.
  - destruct (String.eqb_spec pathname "/api/invites") as [-> | Hp].
    + destruct (wire_create_invite_store token auth b random now (Wire.invites s))
        as [H | [lbl H]];
        destruct (Wire.create_invite _ _ _ _ _ _) as [[r inv'] eff];
        cbn [fst snd] in H; intros [= <- _]; cbn [Wire.invites].
      * by left.
      * right. split; [done |]. split; [done |]. by exists lbl.
    + destruct (String.eqb pathname "/api/register"); [| intros [= <- _]; by left].
      destruct (Wire.register_start _ _ _) as [[r | p] eff]; intros [= <- _]; by left.
  - intros [= <- _]. by left.
  - intros [= <- _]. by left.
Qed.

Lemma wire_step_store_change (s s' : Wire.server) (e : Wire.event)
    (out : list Wire.output) :
  Wire.step token s e = Some (s', out) ->
  Wire.store_change s e (Wire.invites s').
Proof.
  destruct e as [req random now | id reply now]; cbn [Wire.step].
  - unfold Wire.handle_request.
    destruct (Wire.r_method req) eqn:Hm, (Wire.r_pathname req) as [pathname |] eqn:Hpath;
      try discriminate;
      try (intros [= <- <-]; by apply Wire.Unchanged);
      intros Heq; apply (inj Some) in Heq;
      (apply wire_route_store in Heq as [Heq | (Hpost & -> & lbl & Heq)];
       [ by apply Wire.Unchanged
       | try discriminate Hpost; by eapply Wire.Created ]).
  - destruct (Wire.awaiting s !! id) as [p |] eqn:Hp;
      [| intros [= <- <-]; by apply Wire.Unchanged].
    destruct (wire_register_finish_cases (Wire.invites s) p reply now)
      as [(msg & _ & H) | [(_ & _ & msg & H) | (Hok & r & Hr & [[_ H] | (msg & _ & H)])]];
      rewrite H; intros [= <- <-]; cbn [Wire.invites].
    + by apply Wire.Unchanged.
    + by apply Wire.Unchanged.
    + by eapply Wire.Marked.
    + by eapply Wire.Marked.
Qed.



Lemma wire_step_record_ok (s s' : Wire.server) (e : Wire.event)
    (out : list Wire.output) :
  Wire.step token s e = Some (s', out) ->
  (forall tok r, Wire.invites s !! tok = Some r -> Wire.record_ok r) ->
  forall tok r, Wire.invites s' !! tok = Some r -> Wire.record_ok r.
Proof.
  intros Hstep Hinv tok r.
  destruct (wire_step_store_change _ _ _ _ Hstep)
    as [-> | req random lbl now -> Hm Hp -> | id reply now p r' -> _ _ Hr' ->].
  - apply Hinv.
  - destruct (decide (random = tok)) as [-> | Hne].
    + rewrite lookup_insert_eq. intros [= <-]. by split.
    + rewrite lookup_insert_ne by assumption. apply Hinv.
  - destruct (decide (Wire.p_invite p = tok)) as [<- | Hne].
    + rewrite lookup_insert_eq. intros [= <-]. split; by eexists.
    + rewrite lookup_insert_ne by assumption. apply Hinv.
Qed.

Lemma wire_run_record_ok (trace : list Wire.event) :
  forall (s s' : Wire.server) (out : list Wire.output),
    Wire.run token s trace = Some (s', out) ->
    (forall tok r, Wire.invites s !! tok = Some r -> Wire.record_ok r) ->
    forall tok r, Wire.invites s' !! tok = Some r -> Wire.record_ok r.
Proof.
  induction trace as [| e trace IH]; intros s s' out Hrun Hinv.
  - injection Hrun as <- <-. exact Hinv.
  - cbn [Wire.run] in Hrun.
    destruct (Wire.step token s e) as [[s1 out1] |] eqn:Hstep; [| discriminate].
    destruct (Wire.run token s1 trace) as [[s2 out2] |] eqn:Hrest; [| discriminate].
    injection Hrun as <- <-.
    eapply IH; [exact Hrest |]. by eapply wire_step_record_ok.
Qed.

Lemma wire_step_dated (s s' : Wire.server) (e : Wire.event)
    (out : list Wire.output) (lo : Z) :
  Wire.step token s e = Some (s', out) ->
  Wire.store_dated_until lo (Wire.invites s) -> lo <= Wire.time_of e ->
  Wire.store_dated_until (Wire.time_of e) (Wire.invites s').
Proof.
  intros Hstep Hinv Hlo.
  destruct (wire_step_store_change _ _ _ _ Hstep)
    as [-> | req random lbl now -> Hm Hp -> | id reply now p r' -> _ _ Hr' ->];
    intros tok r Hr.
  - destruct (Hinv tok r Hr). split; [assumption | lia].
  - cbn [Wire.time_of] in *.
    destruct (decide (random = tok)) as [-> | Hne].
    + rewrite lookup_insert_eq in Hr. injection Hr as <-.
      split; [by intros t | cbn; lia].
    + rewrite lookup_insert_ne in Hr by assumption.
      destruct (Hinv tok r Hr). split; [assumption | lia].
  - cbn [Wire.time_of] in *.
    destruct (decide (Wire.p_invite p = tok)) as [<- | Hne].
    + rewrite lookup_insert_eq in Hr. injection Hr as <-.
      destruct (Hinv _ _ Hr') as [_ Hc]. split; [| cbn; lia].
      intros t [= <-]. cbn. lia.
    + rewrite lookup_insert_ne in Hr by assumption.
      destruct (Hinv tok r Hr). split; [assumption | lia].
Qed.

Lemma wire_run_dated (trace : list Wire.event) :
  forall (s s' : Wire.server) (out : list Wire.output) (lo : Z),
    Wire.run token s trace = Some (s', out) ->
    Wire.store_dated_until lo (Wire.invites s) ->
    Wire.clock_monotone lo trace = true ->
    forall tok r, Wire.invites s' !! tok = Some r -> Wire.record_dated r.
Proof.
  induction trace as [| e trace IH]; intros s s' out lo Hrun Hinv Hmono.
  - injection Hrun as <- <-. intros tok r Hr. by destruct (Hinv tok r Hr).
  - cbn [Wire.clock_monotone] in Hmono. apply andb_true_iff in Hmono as [Hlo Hrest].
    apply Z.leb_le in Hlo. cbn [Wire.run] in Hrun.
    destruct (Wire.step token s e) as [[s1 out1] |] eqn:Hstep; [| discriminate].
    destruct (Wire.run token s1 trace) as [[s2 out2] |] eqn:Hrun'; [| discriminate].
    injection Hrun as <- <-.
    eapply IH; [exact Hrun' | | exact Hrest]. by eapply wire_step_dated.
Qed.

End WireRuns.

(** ** The store invariant *)

(** C5, as the code has it: in every state the server reaches from the
    empty store, every record with [used = true] has [usedBy] and [usedAt]
    and every record with [used = false] has neither; and [createdAt <=
    usedAt] holds of every record provided the clock readings of the events
    of the run never went back. *)
Theorem reachable_records_ok :
  forall (token : string) (trace : list Wire.event) (s : Wire.server)
         (out : list Wire.output),
    Wire.run token Wire.initial trace = Some (s, out) ->
    forall (tok : string) (r : Wire.invite),
      Wire.invites s !! tok = Some r ->
      (if Wire.used r
       then is_Some (Wire.usedBy r) /\ is_Some (Wire.usedAt r)
       else Wire.usedBy r = None /\ Wire.usedAt r = None) /\
      (forall lo : Z,
         Wire.clock_monotone lo trace = true ->
         forall t, Wire.usedAt r = Some t -> Wire.createdAt r <= t).
Proof.
  intros token trace s out Hrun tok r Hr. split.
  - refine (wire_run_record_ok token trace _ _ _ Hrun _ tok r Hr).
    intros tok' r' H. cbn in H. by rewrite lookup_empty in H.
  - intros lo Hmono.
    refine (wire_run_dated token trace _ _ _ lo Hrun _ Hmono tok r Hr).
    intros tok' r' H. cbn in H. by rewrite lookup_empty in H.
Qed.

Lemma reachable_records_ok_witness :
  (exists s out,
     Wire.run Scenario.admin_token Wire.initial Traffic.in_sequence = Some (s, out) /\
     Wire.invites s !! Scenario.tok
     = Some (Wire.mark_used Traffic.unused_invite (JSON.Str "Alice") 1002)) /\
  Wire.clock_monotone 0 Traffic.in_sequence = true /\
  (is_Some (Some (JSON.Str "Alice")) /\ is_Some (Some 1002)) /\
  1000 <= 1002.
Proof.
  pose (final := default (Wire.initial, [])
                   (Wire.run Scenario.admin_token Wire.initial Traffic.in_sequence)).
  assert (Hrun : Wire.run Scenario.admin_token Wire.initial Traffic.in_sequence
                 = Some (final.1, final.2)) by (vm_compute; reflexivity).
  assert (Hr : Wire.invites final.1 !! Scenario.tok
               = Some (Wire.mark_used Traffic.unused_invite (JSON.Str "Alice") 1002))
    by (vm_compute; reflexivity).
  assert (Hmono : Wire.clock_monotone 0 Traffic.in_sequence = true) by reflexivity.
  split; [exists final.1, final.2; split; [exact Hrun | exact Hr] |].
  split; [exact Hmono |].
  destruct (reachable_records_ok Scenario.admin_token Traffic.in_sequence _ _
              Hrun Scenario.tok _ Hr) as [Hfields Hdated].
  split; [exact Hfields |].
  exact (Hdated 0 Hmono 1002 eq_refl).
Defined.

(** C5, as stated, fails: the clock is wall time, and when it is set back
    while a registration awaits the listener the record ends up used with
    [usedAt] before [createdAt]. *)
Lemma used_before_created :
  exists (s : Wire.server) (out : list Wire.output) (r : Wire.invite),
    Wire.run Scenario.admin_token Wire.initial Traffic.clock_set_back = Some (s, out) /\
    Wire.invites s !! Scenario.tok = Some r /\
    Wire.used r = true /\ Wire.createdAt r = 1000 /\ Wire.usedAt r = Some 999 /\
    ~ (Wire.createdAt r <= 999).
Proof.
  pose (final := default (Wire.initial, [])
                   (Wire.run Scenario.admin_token Wire.initial Traffic.clock_set_back)).
  exists final.1, final.2,
    (Wire.mark_used Traffic.unused_invite (JSON.Str "Alice") 999).
  split; [vm_compute; reflexivity |].
  split; [vm_compute; reflexivity |].
  split; [reflexivity |]. split; [reflexivity |]. split; [reflexivity |].
  cbn. lia.
Qed.

(** ** Admin authentication on the header as it is sent *)

Section HeaderValues.

Lemma trim_right_last (s : string) (c : ascii) :
  last_char (Node.trim_right s) = Some c -> Node.is_ows c = false.
Proof.
  revert c. induction s as [| a s IH]; intros c; cbn [Node.trim_right]; [discriminate |].
  destruct (Node.trim_right s) as [| b t] eqn:Ht.
  - destruct (Node.is_ows a) eqn:Ha; [discriminate |]. cbn. by intros [= <-].
  - cbn [last_char]. exact (IH c).
Qed.

Lemma field_value_last (raw : string) (c : ascii) :
  last_char (Node.field_value raw) = Some c -> Node.is_ows c = false.
Proof. apply trim_right_last. Qed.

Lemma trim_right_fixed (s : string) :
  (forall c, last_char s = Some c -> Node.is_ows c = false) ->
  Node.trim_right s = s.
Proof.
  induction s as [| a s IH]; intros Hlast; [reflexivity |]. cbn [Node.trim_right].
  destruct s as [| b t].
  - cbn. by rewrite (Hlast a eq_refl).
  - rewrite IH by exact Hlast. reflexivity.
Qed.

Lemma last_char_append (s t : string) :
  t <> EmptyString -> last_char (s +:+ t) = last_char t.
Proof.
  intros Ht. induction s as [| a s IH]; [reflexivity |].
  change (String a s +:+ t) with (String a (s +:+ t)). cbn [last_char].
  destruct (s +:+ t) eqn:E; [| exact IH].
  destruct s; [by cbn in E | discriminate].
Qed.

Lemma trim_left_padding (pre s : string) :
  forallb Node.is_ows (chars pre) = true ->
  Node.trim_left (pre +:+ s) = Node.trim_left s.
Proof.
  induction pre as [| a pre IH]; [reflexivity |]. cbn [chars list_ascii_of_string forallb].
  intros H. apply andb_true_iff in H as [Ha Hpre].
  change (String a pre +:+ s) with (String a (pre +:+ s)). cbn [Node.trim_left].
  rewrite Ha. by apply IH.
Qed.

Lemma trim_right_padding (s post : string) :
  forallb Node.is_ows (chars post) = true ->
  Node.trim_right (s +:+ post) = Node.trim_right s.
Proof.
  intros Hpost. induction s as [| a s IH].
  - change (EmptyString +:+ post) with post. cbn [Node.trim_right].
    induction post as [| b post IH]; [reflexivity |].
    cbn [chars list_ascii_of_string forallb] in Hpost.
    apply andb_true_iff in Hpost as [Hb Hpost].
    cbn [Node.trim_right]. by rewrite (IH Hpost), Hb.
  - change (String a s +:+ post) with (String a (s +:+ post)).
    cbn [Node.trim_right]. by rewrite IH.
Qed.

(** What surrounds the value is dropped, and nothing of the value. *)
Lemma field_value_padded (pre post t : string) :
  forallb Node.is_ows (chars pre) = true ->
  forallb Node.is_ows (chars post) = true ->
  t <> EmptyString ->
  (forall c, last_char t = Some c -> Node.is_ows c = false) ->
  Node.field_value (pre +:+ ("Bearer " +:+ t) +:+ post) = "Bearer " +:+ t.
Proof.
  intros Hpre Hpost Ht Hlast. unfold Node.field_value.
  rewrite trim_left_padding by assumption.
  change (Node.trim_left (("Bearer " +:+ t) +:+ post))
    with (("Bearer " +:+ t) +:+ post).
  rewrite trim_right_padding by assumption.
  apply trim_right_fixed. intros c. rewrite last_char_append by assumption.
  apply Hlast.
Qed.

Lemma field_value_not_bearer_alone (raw : string) :
  Node.field_value raw <> "Bearer "%string.
Proof.
  intros H. pose proof (field_value_last raw " "%char) as Hlast.
  rewrite H in Hlast. by specialize (Hlast eq_refl).
Qed.

Lemma empty_token_locks_out (raw : option string) :
  ~ admin_header_ok EmptyString (Node.field_value <$> raw).
Proof.
  intros (a & Ha & _ & Heq). destruct raw as [raw |]; [| discriminate].
  injection Ha as <-. by apply (field_value_not_bearer_alone raw).
Qed.

Lemma LISTENER_TOKEN_empty (env : option string) :
  LISTENER_TOKEN env = EmptyString <-> env = None \/ env = Some EmptyString.
Proof.
  split.
  - destruct env as [[| a t] |]; [by right | discriminate | by left].
  - by intros [-> | ->].
Qed.

End HeaderValues.

(** C10, as the code has it: both admin endpoints answer 401 exactly when
    the [Authorization] value the handler reads, which is the value sent
    without the whitespace around it, is not a non-empty string equal to
    [Bearer <token>]; the token is the environment variable when that is
    set and not empty, and the empty string otherwise; a configured token
    sent after [Bearer ] is accepted, whatever spaces and tabs surround the
    value; with the empty token the expected
    value [Bearer ] ends in a space, which no value the handler reads does,
    so both endpoints answer 401 whatever header is sent. *)
Theorem admin_auth_on_delivered_header :
  ((forall t : string, t <> EmptyString -> LISTENER_TOKEN (Some t) = t) /\
   LISTENER_TOKEN (Some EmptyString) = EmptyString /\
   LISTENER_TOKEN None = EmptyString) /\
  (forall (env raw : option string) (b : Wire.body) (random : string) (now : Z)
          (inv : Wire.store),
     ((Wire.create_invite (LISTENER_TOKEN env) (Node.field_value <$> raw)
         b random now inv).1.1 = Wire.unauthorized
      <-> ~ admin_header_ok (LISTENER_TOKEN env) (Node.field_value <$> raw)) /\
     (Wire.list_invites (LISTENER_TOKEN env) (Node.field_value <$> raw) inv
      = Wire.unauthorized
      <-> ~ admin_header_ok (LISTENER_TOKEN env) (Node.field_value <$> raw)) /\
     (Wire.list_invites (LISTENER_TOKEN env) (Node.field_value <$> raw) inv
      = Wire.Json 200 (Wire.Invites inv)
      <-> admin_header_ok (LISTENER_TOKEN env) (Node.field_value <$> raw))) /\
  (forall (t pre post : string) (inv : Wire.store),
     t <> EmptyString ->
     (forall c, last_char t = Some c -> Node.is_ows c = false) ->
     forallb Node.is_ows (chars pre) = true ->
     forallb Node.is_ows (chars post) = true ->
     Wire.list_invites (LISTENER_TOKEN (Some t))
       (Node.field_value <$> Some (pre +:+ ("Bearer " +:+ t) +:+ post)) inv
     = Wire.Json 200 (Wire.Invites inv) /\
     forall (b : Wire.body) (random : string) (now : Z),
       (Wire.create_invite (LISTENER_TOKEN (Some t))
          (Node.field_value <$> Some (pre +:+ ("Bearer " +:+ t) +:+ post))
          b random now inv).1.1
       <> Wire.unauthorized) /\
  (forall (env raw : option string) (s : Wire.server) (m : method)
          (b : Wire.body) (random : string) (now : Z),
     env = None \/ env = Some EmptyString ->
     m = POST \/ m = GET ->
     ~ admin_header_ok (LISTENER_TOKEN env) (Node.field_value <$> raw) /\
     Wire.step (LISTENER_TOKEN env) s
       (Wire.Request {| Wire.r_method := m;
                        Wire.r_pathname := Some "/api/invites"%string;
                        Wire.r_authorization := raw; Wire.r_body := b |} random now)
     = Some ({| Wire.invites := Wire.invites s; Wire.awaiting := Wire.awaiting s;
                Wire.next_request := S (Wire.next_request s) |},
             [Wire.Responds (Wire.next_request s) Wire.unauthorized])).
Proof.
  assert (Hcreate : forall token auth b random now inv,
             (Wire.create_invite token auth b random now inv).1.1 = Wire.unauthorized
             <-> ~ admin_header_ok token auth).
  { intros token auth b random now inv. unfold Wire.create_invite.
    destruct (negb (truthy auth) || negb (strict_eq auth _)) eqn:E.
    - split; [| reflexivity]. intros _ Hok. apply admin_check in Hok. congruence.
    - apply admin_check in E. split; [| done].
      destruct b as [msg | v]; [discriminate |].
      destruct (JSON.prop v "label"); [| discriminate].
      destruct (JSON.toString _); discriminate. }
  assert (Hlist : forall token auth inv,
             (Wire.list_invites token auth inv = Wire.unauthorized
              <-> ~ admin_header_ok token auth) /\
             (Wire.list_invites token auth inv = Wire.Json 200 (Wire.Invites inv)
              <-> admin_header_ok token auth)).
  { intros token auth inv. unfold Wire.list_invites.
    destruct (negb (truthy auth) || negb (strict_eq auth _)) eqn:E.
    - assert (Hno : ~ admin_header_ok token auth)
        by (intros Hok; apply admin_check in Hok; congruence).
      split; split; done.
    - apply admin_check in E. split; split; done. }
  split; [| split; [| split]].
  - split; [| split; reflexivity]. intros t Ht. by destruct t.
  - intros env raw b random now inv.
    split; [apply Hcreate | apply Hlist].
  - intros t pre post inv Ht Hlast Hpre Hpost.
    assert (Htoken : LISTENER_TOKEN (Some t) = t) by (by destruct t).
    assert (Hok : admin_header_ok (LISTENER_TOKEN (Some t))
                    (Node.field_value <$> Some (pre +:+ ("Bearer " +:+ t) +:+ post))).
    { rewrite Htoken. cbn [fmap option_fmap option_map].
      rewrite (field_value_padded pre post t Hpre Hpost Ht Hlast).
      eexists. split; [reflexivity |]. split; [discriminate | reflexivity]. }
    split; [by apply Hlist |].
    intros b random now Hun. by apply Hcreate in Hun.
  - intros env raw s m b random now Henv Hm.
    assert (Hno : ~ admin_header_ok (LISTENER_TOKEN env) (Node.field_value <$> raw)).
    { rewrite (proj2 (LISTENER_TOKEN_empty env) Henv). apply empty_token_locks_out. }
    split; [exact Hno |].
    cbn [Wire.step]. unfold Wire.handle_request.
    cbn [Wire.r_method Wire.r_pathname Wire.r_authorization Wire.r_body].
    destruct Hm as [-> | ->]; unfold Wire.route; rewrite String.eqb_refl;
      cbn [Wire.invites Wire.awaiting Wire.next_request].
    + pose proof (proj2 (Hcreate (LISTENER_TOKEN env) (Node.field_value <$> raw)
                           b random now (Wire.invites s)) Hno) as Hr.
      unfold Wire.create_invite in *.
      destruct (negb (truthy (Node.field_value <$> raw))
                || negb (strict_eq (Node.field_value <$> raw)
                           ("Bearer " +:+ LISTENER_TOKEN env))) eqn:E;
        [reflexivity |].
      apply admin_check in E. contradiction.
    + by rewrite (proj2 (proj1 (Hlist (LISTENER_TOKEN env) (Node.field_value <$> raw)
                                  (Wire.invites s))) Hno).
Qed.

Lemma admin_auth_on_delivered_header_witness :
  Scenario.admin_token <> EmptyString /\
  (forall c, last_char Scenario.admin_token = Some c -> Node.is_ows c = false) /\
  Wire.list_invites (LISTENER_TOKEN (Some Scenario.admin_token))
    (Node.field_value <$> Some (" " +:+ ("Bearer " +:+ Scenario.admin_token) +:+ "  "))
    Traffic.one_unused
  = Wire.Json 200 (Wire.Invites Traffic.one_unused) /\
  ~ admin_header_ok (LISTENER_TOKEN None) (Node.field_value <$> Some "Bearer "%string).
Proof.
  assert (H1 : Scenario.admin_token <> EmptyString) by discriminate.
  assert (H2 : forall c, last_char Scenario.admin_token = Some c ->
                         Node.is_ows c = false)
    by (intros c [= <-]; reflexivity).
  split; [exact H1 |]. split; [exact H2 |]. split.
  - exact (proj1 (proj1 (proj2 (proj2 admin_auth_on_delivered_header))
                    Scenario.admin_token " " "  " Traffic.one_unused H1 H2
                    eq_refl eq_refl)).
  - exact (proj1 (proj2 (proj2 (proj2 admin_auth_on_delivered_header))
                    None (Some "Bearer "%string) Wire.initial POST
                    (Wire.Parsed (JSON.Obj [])) Scenario.tok 1000
                    (or_introl eq_refl) (or_introl eq_refl))).
Defined.

(** C10, as stated, fails in its last clause: with [LISTENER_TOKEN] unset,
    a request sent with the header line [Authorization: Bearer ] reaches
    the handler with the value [Bearer], without the trailing space, and
    both admin endpoints answer 401. *)
Lemma bearer_alone_refused :
  Node.field_value "Bearer " = "Bearer"%string /\
  Wire.step (LISTENER_TOKEN None) Wire.initial
    (Wire.Request (Traffic.bearer_alone POST) Scenario.tok 1000)
  = Some ({| Wire.invites := ∅; Wire.awaiting := ∅; Wire.next_request := 1 |},
          [Wire.Responds 0 (Wire.Json 401 (Wire.Error "Unauthorized"))]) /\
  Wire.step (LISTENER_TOKEN None) Wire.initial
    (Wire.Request (Traffic.bearer_alone GET) Scenario.tok 1000)
  = Some ({| Wire.invites := ∅; Wire.awaiting := ∅; Wire.next_request := 1 |},
          [Wire.Responds 0 (Wire.Json 401 (Wire.Error "Unauthorized"))]).
Proof. repeat split; vm_compute; reflexivity. Qed.

(** ** Registrations that fail *)

(** The one way a registration changes the store: its listener call
    succeeded and the record it presented was marked. *)
Lemma wire_register_store (inv inv' : Wire.store) (b : Wire.body) (random : string)
    (reply : listener_reply) (now : Z) (r : Wire.response)
    (effects : list Wire.effect) :
  Wire.register inv b random reply now = (r, inv', effects) ->
  inv' = inv \/
  (registerOnListener reply = Return tt /\
   ~ In r Wire.rejections /\
   exists p rec,
     Wire.register_start inv b random = (Wire.Awaiting p, effects) /\
     inv !! Wire.p_invite p = Some rec /\ Wire.used rec = false /\
     inv' = <[Wire.p_invite p := Wire.mark_used rec (Wire.p_storeName p) now]> inv /\
     ((JSON.prints (Wire.p_storeName p) /\
       r = Wire.Json 200 (Wire.Registered (Wire.c_webhookUrl (Wire.p_call p))
                            (Wire.c_webhookSecret (Wire.p_call p)))) \/
      (exists msg, JSON.toString (Wire.p_storeName p) = Throw msg /\
                   r = Wire.Json 500 (Wire.Error msg)))).
Proof.
  intros Hreg.
  destruct (wire_register_cases inv b random reply now)
    as [(r0 & eff & Hs & Hr) | (p & eff & Hs & Hr)]; rewrite Hr in Hreg.
  - injection Hreg as <- <- <-. by left.
  - destruct (wire_register_start_awaiting _ _ _ _ _ Hs)
      as (v & key & _ & (invite & _ & _ & _ & rec' & Hrec' & Hu) & Hkey & _ & _).
    destruct (wire_register_finish_cases inv p reply now)
      as [(msg & _ & H) | [(_ & _ & msg & H) | (Hok & rec & Hrec & Hcases)]].
    + rewrite H in Hreg. injection Hreg as <- <- <-. by left.
    + rewrite H in Hreg. injection Hreg as <- <- <-. by left.
    + right. split; [exact Hok |].
      rewrite Hkey in Hrec. assert (rec' = rec) as -> by congruence.
      assert (Hr' : r = (Wire.register_finish inv p reply now).1) by congruence.
      assert (Hinv' : inv' = (Wire.register_finish inv p reply now).2) by congruence.
      assert (Heff : eff = effects) by congruence. subst eff.
      split.
      * destruct Hcases as [[_ H] | (msg & _ & H)]; rewrite H in Hr'; subst r;
          cbn; intros [H' | [H' | [H' | [H' | [H' | []]]]]]; discriminate.
      * exists p, rec. split; [exact Hs |]. rewrite Hkey.
        split; [exact Hrec |]. split; [exact Hu |]. rewrite <- Hkey.
        destruct Hcases as [[Hp H] | (msg & Hp & H)]; rewrite H in Hr', Hinv';
          (split; [exact Hinv' |]); [left; by split | right; by exists msg].
Qed.

(** C4, as the code has it: a registration that fails at one of the steps
    that come before the marking (it is answered invalid invite, invite
    already used, missing field, invalid or wrong-length identifier, or its
    listener call fails) leaves the invite store as it was, so a record
    that was unused is still the same unused record, with no [usedBy] and
    no [usedAt] in any store the server reaches, and a body that presented
    it presents it still; the failure of the listener call is
    answered 500 with its message; and along a run neither the first half
    of a registration nor a failed listener call changes the store. *)
Theorem failure_before_marking_keeps_store :
  (forall (inv inv' : Wire.store) (b : Wire.body) (random : string)
          (reply : listener_reply) (now : Z) (r : Wire.response)
          (effects : list Wire.effect),
     Wire.register inv b random reply now = (r, inv', effects) ->
     In r Wire.rejections \/ (exists msg, registerOnListener reply = Throw msg) ->
     inv' = inv /\
     (forall tok rec, inv !! tok = Some rec -> Wire.used rec = false ->
                      inv' !! tok = Some rec) /\
     (forall v key, Wire.presents_unused inv v key ->
                    Wire.presents_unused inv' v key)) /\
  (forall (token : string) (trace : list Wire.event) (s : Wire.server)
          (out : list Wire.output) (inv' : Wire.store) (b : Wire.body)
          (random : string) (reply : listener_reply) (now : Z)
          (r : Wire.response) (effects : list Wire.effect),
     Wire.run token Wire.initial trace = Some (s, out) ->
     Wire.register (Wire.invites s) b random reply now = (r, inv', effects) ->
     In r Wire.rejections \/ (exists msg, registerOnListener reply = Throw msg) ->
     forall tok rec, inv' !! tok = Some rec -> Wire.used rec = false ->
                     Wire.usedBy rec = None /\ Wire.usedAt rec = None) /\
  (forall (inv : Wire.store) (b : Wire.body) (random : string)
          (reply : listener_reply) (now : Z) (p : Wire.pending)
          (effects : list Wire.effect) (msg : string),
     Wire.register_start inv b random = (Wire.Awaiting p, effects) ->
     registerOnListener reply = Throw msg ->
     Wire.register inv b random reply now
     = (Wire.Json 500 (Wire.Error msg), inv, effects)) /\
  (forall (token : string) (s s' : Wire.server) (req : Wire.request)
          (random : string) (now : Z) (out : list Wire.output),
     Wire.r_method req = POST ->
     Wire.r_pathname req = Some "/api/register"%string ->
     Wire.step token s (Wire.Request req random now) = Some (s', out) ->
     Wire.invites s' = Wire.invites s) /\
  (forall (token : string) (s s' : Wire.server) (id : nat)
          (reply : listener_reply) (now : Z) (msg : string)
          (out : list Wire.output),
     registerOnListener reply = Throw msg ->
     Wire.step token s (Wire.ListenerSettles id reply now) = Some (s', out) ->
     Wire.invites s' = Wire.invites s).
Proof.
  assert (Hkeep : forall inv inv' b random reply now r effects,
             Wire.register inv b random reply now = (r, inv', effects) ->
             In r Wire.rejections \/ (exists msg, registerOnListener reply = Throw msg) ->
             inv' = inv).
  { intros inv inv' b random reply now r effects Hreg Hfail.
    destruct (wire_register_store _ _ _ _ _ _ _ _ Hreg)
      as [-> | (Hok & Hnot & _)]; [reflexivity |].
    destruct Hfail as [Hin | [msg Hmsg]]; [contradiction | congruence]. }
  split; [| split; [| split; [| split]]].
  - intros inv inv' b random reply now r effects Hreg Hfail.
    rewrite (Hkeep _ _ _ _ _ _ _ _ Hreg Hfail). by repeat split.
  - intros token trace s out inv' b random reply now r effects Hrun Hreg Hfail
      tok rec Hrec Hu.
    rewrite (Hkeep _ _ _ _ _ _ _ _ Hreg Hfail) in Hrec.
    assert (Hok : Wire.record_ok rec).
    { refine (wire_run_record_ok token trace _ _ _ Hrun _ tok rec Hrec).
      intros tok' r' H. cbn in H. by rewrite lookup_empty in H. }
    unfold Wire.record_ok in Hok. by rewrite Hu in Hok.
  - intros inv b random reply now p effects msg Hs Hfail.
    unfold Wire.register. rewrite Hs. unfold Wire.register_finish. by rewrite Hfail.
  - intros token s s' req random now out Hm Hp. cbn [Wire.step].
    unfold Wire.handle_request. rewrite Hm, Hp. unfold Wire.route.
    change (String.eqb "/api/register" "/api/invites") with false.
    rewrite String.eqb_refl. cbv iota.
    destruct (Wire.register_start _ _ _) as [[r | p] eff]; by intros [= <- _].
  - intros token s s' id reply now msg out Hfail. cbn [Wire.step].
    destruct (Wire.awaiting s !! id) as [p |]; [| by intros [= <- _]].
    unfold Wire.register_finish. rewrite Hfail. by intros [= <- _].
Qed.

Lemma failure_before_marking_keeps_store_witness :
  Wire.register Traffic.one_unused (Wire.Parsed (Traffic.registration (JSON.Str "Alice")))
    "aa" Scenario.refused 1002
  = (Wire.Json 500 (Wire.Error "Listener registration failed: 409 duplicate"),
     Traffic.one_unused,
     [Wire.RandomBytes 32; Wire.CallListener (Traffic.call (JSON.Str "Alice") "aa")]) /\
  (exists msg, registerOnListener Scenario.refused = Throw msg) /\
  Traffic.one_unused = Traffic.one_unused.
Proof.
  assert (H : Wire.register Traffic.one_unused
                (Wire.Parsed (Traffic.registration (JSON.Str "Alice")))
                "aa" Scenario.refused 1002
              = (Wire.Json 500 (Wire.Error "Listener registration failed: 409 duplicate"),
                 Traffic.one_unused,
                 [Wire.RandomBytes 32;
                  Wire.CallListener (Traffic.call (JSON.Str "Alice") "aa")]))
    by (vm_compute; reflexivity).
  assert (H2 : exists msg, registerOnListener Scenario.refused = Throw msg)
    by (eexists; vm_compute; reflexivity).
  split; [exact H |]. split; [exact H2 |].
  exact (proj1 (proj1 failure_before_marking_keeps_store _ _ _ _ _ _ _ _ H
                  (or_intror H2))).
Defined.

(** C4, as stated, fails twice.  A registration that fails with "Invite
    already used" leaves a record that has [used = true], not [false].  And
    a failure past the listed steps changes the store: the log line that
    follows the marking throws on a store name that cannot be printed, and
    the request is answered 500 with the invite consumed. *)
Lemma failed_registration_leaves_used_record :
  Wire.register Traffic.one_used (Wire.Parsed (Traffic.registration (JSON.Str "Bob")))
    "bb" Scenario.accepted 1003
  = (Wire.Json 403 (Wire.Error "Invite already used"), Traffic.one_used, []) /\
  (exists rec, Traffic.one_used !! Scenario.tok = Some rec /\ Wire.used rec = true) /\
  Wire.register Traffic.one_unused (Wire.Parsed (Traffic.registration Traffic.unprintable))
    "aa" Scenario.accepted 1002
  = (Wire.Json 500 (Wire.Error "Cannot convert object to primitive value"),
     {[ Scenario.tok := Wire.mark_used Traffic.unused_invite Traffic.unprintable 1002 ]},
     [Wire.RandomBytes 32; Wire.CallListener (Traffic.call Traffic.unprintable "aa")]) /\
  ({[ Scenario.tok := Wire.mark_used Traffic.unused_invite Traffic.unprintable 1002 ]}
   : Wire.store) <> Traffic.one_unused.
Proof.
  split; [vm_compute; reflexivity |].
  split; [eexists; split; [apply lookup_singleton_eq | reflexivity] |].
  split; [vm_compute; reflexivity |].
  intros H. apply (f_equal (fun m : Wire.store => Wire.used <$> m !! Scenario.tok)) in H.
  unfold Traffic.one_unused in H. rewrite !lookup_singleton_eq in H. discriminate.
Qed.

(** ** Consumption *)





(** * Further properties *)

(** ** More on the identity codec *)

Section CodecFacts.
Import CodecSpec.

Lemma chars_append (s1 s2 : string) : chars (s1 +:+ s2) = chars s1 ++ chars s2.
Proof.
  unfold chars. induction s1 as [| c s1 IH]; [reflexivity |].
  change (String c s1 +:+ s2) with (String c (s1 +:+ s2)).
  cbn [list_ascii_of_string app]. by rewrite IH.
Qed.

Lemma length_chars (s : string) : length (chars s) = String.length s.
Proof. induction s as [| c s IH]; [reflexivity |]. cbn. by rewrite <- IH. Qed.

Lemma length_drop_last {A} (k : nat) (l : list A) :
  length (drop_last k l) = (length l - k)%nat.
Proof. unfold drop_last. by rewrite length_rev, length_drop, length_rev. Qed.

Lemma drop_last_app {A} (l c : list A) : drop_last (length c) (l ++ c) = l.
Proof.
  unfold drop_last. rewrite rev_app_distr, <- (length_rev c), drop_app_length.
  apply rev_involutive.
Qed.

Lemma length_bits (values : list Z) :
  length (concat (map bits5 values)) = (5 * length values)%nat.
Proof. induction values as [| v values IH]; [reflexivity |]. cbn. lia. Qed.

Lemma length_regroup8 (bs : list bool) :
  length (regroup8 bs) = (length bs / 8)%nat.
Proof.
  remember (length bs) as n eqn:Hn. revert bs Hn.
  induction n as [n IH] using lt_wf_ind. intros bs Hn.
  destruct (le_lt_dec 8 (length bs)) as [Hge | Hlt].
  - rewrite <- (take_drop 8 bs).
    assert (Hl : length (take 8 bs) = 8%nat) by (rewrite length_take; lia).
    rewrite regroup8_full by assumption. cbn [length].
    rewrite (IH (length (drop 8 bs))); [| rewrite length_drop; lia | reflexivity].
    rewrite length_drop. subst n.
    replace (length bs) with (1 * 8 + (length bs - 8))%nat at 2 by lia.
    rewrite Nat.div_add_l by lia. lia.
  - rewrite regroup8_short by assumption. subst n.
    rewrite Nat.div_small by lia. reflexivity.
Qed.

Lemma length_hex (bytes : list Z) : String.length (hex bytes) = (2 * length bytes)%nat.
Proof. induction bytes as [| b bytes IH]; [reflexivity |]. cbn. lia. Qed.

Lemma hex_digit_lower (n : Z) : hex_digit n ∈ lower_hex_digits.
Proof.
  unfold hex_digit, lower_hex_digits.
  destruct (nth_in_or_default (Z.to_nat n) (chars "0123456789abcdef") "0"%char)
    as [Hin | ->].
  - by apply list_elem_of_In.
  - apply list_elem_of_In. left. reflexivity.
Qed.

Lemma hex_lower (bytes : list Z) : Forall (fun c => c ∈ lower_hex_digits) (chars (hex bytes)).
Proof.
  induction bytes as [| b bytes IH]; [constructor |].
  cbn [hex]. unfold chars in *. cbn [list_ascii_of_string].
  constructor; [apply hex_digit_lower |].
  constructor; [apply hex_digit_lower | exact IH].
Qed.

Lemma decode_data_length (data : list ascii) :
  String.length (decode_data data) = (2 * (5 * (length data - 6) / 8))%nat.
Proof.
  unfold decode_data.
  by rewrite length_hex, length_regroup8, length_bits, length_drop_last, length_map.
Qed.

End CodecFacts.

(** X1: on an identifier made of the prefix and [n] alphabet characters,
    [npubToHex] returns [2 * floor (5 * (n - 6) / 8)] characters, so the
    64-character check of the registration handler passes exactly for
    [n = 58]. *)
Theorem npubToHex_length :
  forall data : string,
    Forall (fun c => c ∈ CodecSpec.alphabet) (chars data) ->
    exists h,
      npubToHex ("npub1" +:+ data) = Return h /\
      String.length h = (2 * (5 * (String.length data - 6) / 8))%nat /\
      (String.length h = 64%nat <-> String.length data = 58%nat).
Proof.
  intros data H. eexists. split; [by apply npubToHex_in_alphabet |].
  rewrite decode_data_length, length_chars.
  split; [reflexivity |].
  set (n := String.length data).
  split.
  - intros Hlen.
    assert (Hq : (5 * (n - 6) / 8 = 32)%nat) by lia.
    pose proof (Nat.div_mod (5 * (n - 6)) 8 ltac:(lia)) as Hdm.
    pose proof (Nat.mod_upper_bound (5 * (n - 6)) 8 ltac:(lia)) as Hm.
    rewrite Hq in Hdm. lia.
  - intros ->. reflexivity.
Qed.

Lemma npubToHex_length_witness :
  Forall (fun c => c ∈ CodecSpec.alphabet) (chars "qpzry9x8gf2tvdw0") /\
  exists h,
    npubToHex ("npub1" +:+ "qpzry9x8gf2tvdw0") = Return h /\
    String.length h = (2 * (5 * (String.length "qpzry9x8gf2tvdw0" - 6) / 8))%nat /\
    (String.length h = 64%nat <-> String.length "qpzry9x8gf2tvdw0" = 58%nat).
Proof.
  assert (H : Forall (fun c => c ∈ CodecSpec.alphabet) (chars "qpzry9x8gf2tvdw0"))
    by (apply (bool_decide_unpack _); vm_compute; exact I).
  split; [exact H | exact (npubToHex_length "qpzry9x8gf2tvdw0" H)].
Defined.

(** X2: the six checksum characters are never looked at beyond their being
    in the alphabet: two identifiers that differ only there decode alike. *)
Theorem npubToHex_ignores_checksum :
  forall payload checksum1 checksum2 : string,
    Forall (fun c => c ∈ CodecSpec.alphabet) (chars payload) ->
    Forall (fun c => c ∈ CodecSpec.alphabet) (chars checksum1) ->
    Forall (fun c => c ∈ CodecSpec.alphabet) (chars checksum2) ->
    String.length checksum1 = 6%nat -> String.length checksum2 = 6%nat ->
    npubToHex ("npub1" +:+ (payload +:+ checksum1))
    = npubToHex ("npub1" +:+ (payload +:+ checksum2)).
Proof.
  intros payload c1 c2 Hp H1 H2 Hl1 Hl2.
  assert (Hdec : forall c, Forall (fun c => c ∈ CodecSpec.alphabet) (chars c) ->
                           String.length c = 6%nat ->
            npubToHex ("npub1" +:+ (payload +:+ c))
            = Return (CodecSpec.hex (CodecSpec.regroup8
                (concat (map CodecSpec.bits5 (map CodecSpec.value_of (chars payload))))))).
  { intros c Hc Hl. rewrite npubToHex_in_alphabet
      by (rewrite chars_append; by apply Forall_app).
    unfold CodecSpec.decode_data.
    rewrite chars_append, map_app.
    replace 6%nat with (length (map CodecSpec.value_of (chars c)))
      by (by rewrite length_map, length_chars).
    by rewrite drop_last_app. }
  by rewrite (Hdec c1), (Hdec c2).
Qed.

Lemma npubToHex_ignores_checksum_witness :
  Forall (fun c => c ∈ CodecSpec.alphabet) (chars "qpzry9x8") /\
  Forall (fun c => c ∈ CodecSpec.alphabet) (chars "qqqqqq") /\
  Forall (fun c => c ∈ CodecSpec.alphabet) (chars "llllll") /\
  npubToHex ("npub1" +:+ ("qpzry9x8" +:+ "qqqqqq"))
  = npubToHex ("npub1" +:+ ("qpzry9x8" +:+ "llllll")).
Proof.
  assert (H0 : Forall (fun c => c ∈ CodecSpec.alphabet) (chars "qpzry9x8"))
    by (apply (bool_decide_unpack _); vm_compute; exact I).
  assert (H1 : Forall (fun c => c ∈ CodecSpec.alphabet) (chars "qqqqqq"))
    by (apply (bool_decide_unpack _); vm_compute; exact I).
  assert (H2 : Forall (fun c => c ∈ CodecSpec.alphabet) (chars "llllll"))
    by (apply (bool_decide_unpack _); vm_compute; exact I).
  split; [exact H0 |]. split; [exact H1 |]. split; [exact H2 |].
  exact (npubToHex_ignores_checksum "qpzry9x8" "qqqqqq" "llllll" H0 H1 H2
           eq_refl eq_refl).
Defined.

(** X3: what [npubToHex] decodes is written with the digits [0-9a-f] only. *)
Theorem npubToHex_lower_hex :
  forall (data h : string),
    npubToHex ("npub1" +:+ data) = Return h ->
    Forall (fun c => c ∈ lower_hex_digits) (chars h).
Proof.
  intros data h H.
  destruct (alphabet_dec (chars data)) as [Hall | Hex].
  - rewrite npubToHex_in_alphabet in H by assumption.
    injection H as <-. apply hex_lower.
  - rewrite npubToHex_prefixed, values_loop_some in H by assumption. discriminate.
Qed.

Lemma npubToHex_lower_hex_witness :
  npubToHex ("npub1" +:+ "qpzry9x8gf2tvdw0") = Return "00443214c742"%string /\
  Forall (fun c => c ∈ lower_hex_digits) (chars "00443214c742").
Proof.
  assert (H : npubToHex ("npub1" +:+ "qpzry9x8gf2tvdw0") = Return "00443214c742"%string)
    by (vm_compute; reflexivity).
  split; [exact H | exact (npubToHex_lower_hex _ _ H)].
Defined.

(** ** More on the registration workflow *)

Section WorkflowFacts.

Lemma npubToHex_raw (s : string) :
  (~ exists data, s = "npub1" +:+ data) -> npubToHex s = Return s.
Proof.
  intros Hs. unfold npubToHex.
  destruct (startsWith s "npub1") eqn:E; [| reflexivity].
  exfalso. apply Hs. exists (slice 5 s). by apply startsWith_npub1.
Qed.

(** The first half of a registration whose invite and fields pass the
    checks, spelled out on the strings the body carries. *)
Lemma register_start_valid (inv : store) (f : fields)
    (tok npub wooUrl storeName pubkeyHex random : string) :
  presents_unused inv f tok ->
  f_npub f = Some npub -> npub <> EmptyString ->
  f_wooUrl f = Some wooUrl -> wooUrl <> EmptyString ->
  f_storeName f = Some storeName -> storeName <> EmptyString ->
  npubToHex npub = Return pubkeyHex -> String.length pubkeyHex = 64%nat ->
  register_start inv (JsonValue f) random
  = (Awaiting {| p_invite := tok; p_storeName := storeName;
                 p_call := registration_call pubkeyHex storeName wooUrl random |},
     [RandomBytes 32;
      CallListener (registration_call pubkeyHex storeName wooUrl random)]).
Proof.
  intros Hinv Hn Hn' Hw Hw' Hs Hs' Hdec Hlen.
  rewrite (register_start_unused inv f tok random Hinv).
  rewrite (proj2 (truthy_nonempty (f_npub f))) by (by exists npub).
  rewrite (proj2 (truthy_nonempty (f_wooUrl f))) by (by exists wooUrl).
  rewrite (proj2 (truthy_nonempty (f_storeName f))) by (by exists storeName).
  cbn [negb orb].
  rewrite (or_else_truthy _ npub "" Hn Hn'), (or_else_truthy _ wooUrl "" Hw Hw'),
    (or_else_truthy _ storeName "" Hs Hs'), Hdec.
  apply Nat.eqb_eq in Hlen. rewrite Hlen. reflexivity.
Qed.

(** Conversely, a first half that reaches the listener call had all of
    that. *)
Lemma register_start_awaiting_valid (inv : store) (b : body) (random : string)
    (p : pending) (effects : list effect) :
  register_start inv b random = (Awaiting p, effects) ->
  exists f tok npub wooUrl storeName pubkeyHex,
    b = JsonValue f /\ presents_unused inv f tok /\
    f_npub f = Some npub /\ npub <> EmptyString /\
    f_wooUrl f = Some wooUrl /\ wooUrl <> EmptyString /\
    f_storeName f = Some storeName /\ storeName <> EmptyString /\
    npubToHex npub = Return pubkeyHex /\ String.length pubkeyHex = 64%nat.
Proof.
  intros H. pose proof H as H'.
  apply register_start_awaiting in H'
    as (f & tok & r & -> & Hf & Htok & _ & Hr & Hu & Hn & Hw & Hs & _).
  apply truthy_nonempty in Hn as (npub & Hn & Hn').
  apply truthy_nonempty in Hw as (wooUrl & Hw & Hw').
  apply truthy_nonempty in Hs as (storeName & Hs & Hs').
  assert (Hinv : presents_unused inv f tok)
    by (split; [done | split; [done | by exists r]]).
  rewrite (register_start_unused inv f tok random Hinv) in H.
  rewrite (proj2 (truthy_nonempty (f_npub f))) in H by (by exists npub).
  rewrite (proj2 (truthy_nonempty (f_wooUrl f))) in H by (by exists wooUrl).
  rewrite (proj2 (truthy_nonempty (f_storeName f))) in H by (by exists storeName).
  cbn [negb orb] in H. rewrite (or_else_truthy _ npub "" Hn Hn') in H.
  destruct (npubToHex npub) as [h |] eqn:Hdec; [| discriminate].
  destruct (String.length h =? 64)%nat eqn:Hlen; [| discriminate].
  apply Nat.eqb_eq in Hlen.
  exists f, tok, npub, wooUrl, storeName, h.
  split; [reflexivity |]. split; [exact Hinv |]. repeat split; assumption.
Qed.

End WorkflowFacts.

(** X5: a successful registration answers with the webhook URL and secret
    it sent to the listener: for an invite in the issued format, the URL is
    [wooUrl] without one trailing slash followed by the plugin's path, the
    secret is the one drawn for this request, the key sent is the
    64-character decoding of [npub], and the presented record, and no
    other, is marked with the store name and the time. *)
Theorem registration_success_shape :
  forall (inv inv' : store) (f : fields) (random : string)
         (reply : listener_reply) (now : Z) (r : response)
         (effects : list effect),
    issued_format f ->
    register inv (JsonValue f) random reply now = (r, inv', effects) ->
    status_of r = Some 200 ->
    exists tok rec npub wooUrl storeName pubkeyHex,
      f_invite f = Some tok /\ inv !! tok = Some rec /\
      f_npub f = Some npub /\ f_wooUrl f = Some wooUrl /\
      f_storeName f = Some storeName /\
      npubToHex npub = Return pubkeyHex /\ String.length pubkeyHex = 64%nat /\
      let call := registration_call pubkeyHex storeName wooUrl random in
      r = Json 200 (Registered (c_webhookUrl call) random) /\
      effects = [RandomBytes 32; CallListener call] /\
      inv' = <[tok := mark_used rec storeName now]> inv.
Proof.
  intros inv inv' f random reply now r effects _ Hreg Hst.
  destruct (register_cases inv (JsonValue f) random reply now)
    as [(r0 & eff & Hs & Hr) | (p & eff & Hs & Hr)]; rewrite Hr in Hreg.
  - injection Hreg as <- <- <-.
    by destruct (register_start_responses _ _ _ _ _ Hs).
  - destruct (register_start_awaiting_valid _ _ _ _ _ Hs)
      as (f' & tok & npub & wooUrl & storeName & h & [= <-] & Hinv & Hn & Hn' & Hw
          & Hw' & Hsn & Hsn' & Hdec & Hlen).
    rewrite (register_start_valid inv f tok npub wooUrl storeName h random) in Hs
      by done.
    injection Hs as <- <-.
    destruct (register_finish_cases inv
                {| p_invite := tok; p_storeName := storeName;
                   p_call := registration_call h storeName wooUrl random |}
                reply now)
      as [[msg H] | (Hok & rec & Hrec & H)]; rewrite H in Hreg;
      injection Hreg as <- <- <-; [discriminate |].
    destruct Hinv as (Hf & _ & _).
    exists tok, rec, npub, wooUrl, storeName, h. by repeat split.
Qed.

Lemma registration_success_shape_witness :
  register Scenario.one_unused (JsonValue (Scenario.registration "Alice")) "aa"
    Scenario.accepted 1002
  = (Json 200 (Registered
                 "https://shop.example/wp-json/woo-nostr-market/v1/order-webhook"
                 "aa"),
     Scenario.one_used,
     [RandomBytes 32;
      CallListener (registration_call generator_hex "Alice"
                      "https://shop.example/" "aa")]) /\
  exists npub pubkeyHex,
    npubToHex npub = Return pubkeyHex /\ String.length pubkeyHex = 64%nat.
Proof.
  assert (H : register Scenario.one_unused
                (JsonValue (Scenario.registration "Alice")) "aa"
                Scenario.accepted 1002
              = (Json 200 (Registered
                   "https://shop.example/wp-json/woo-nostr-market/v1/order-webhook"
                   "aa"),
                 Scenario.one_used,
                 [RandomBytes 32;
                  CallListener (registration_call generator_hex "Alice"
                                  "https://shop.example/" "aa")]))
    by (vm_compute; reflexivity).
  split; [exact H |].
  assert (Hfmt : issued_format (Scenario.registration "Alice"))
    by (intros tok [= <-]; vm_compute; reflexivity).
  destruct (registration_success_shape _ _ _ _ _ _ _ _ Hfmt H eq_refl)
    as (tok & rec & npub & wooUrl & storeName & h & _ & _ & _ & _ & _
        & Hdec & Hlen & _).
  exists npub, h. split; assumption.
Defined.

(** X6: the identifier is not checked to be hexadecimal: a registration
    whose [npub] is any 64-character string without the [npub1] prefix
    reaches the listener with that very string as the key. *)
Theorem raw_key_sent_verbatim :
  forall (inv : store) (f : fields) (tok npub wooUrl storeName random : string),
    presents_unused inv f tok ->
    f_npub f = Some npub ->
    (~ exists data, npub = "npub1" +:+ data) -> String.length npub = 64%nat ->
    f_wooUrl f = Some wooUrl -> wooUrl <> EmptyString ->
    f_storeName f = Some storeName -> storeName <> EmptyString ->
    register_start inv (JsonValue f) random
    = (Awaiting {| p_invite := tok; p_storeName := storeName;
                   p_call := registration_call npub storeName wooUrl random |},
       [RandomBytes 32;
        CallListener (registration_call npub storeName wooUrl random)]).
Proof.
  intros inv f tok npub wooUrl storeName random Hinv Hn Hraw Hlen Hw Hw' Hs Hs'.
  apply (register_start_valid inv f tok npub wooUrl storeName npub random);
    try done.
  - intros ->. discriminate Hlen.
  - by apply npubToHex_raw.
Qed.

Lemma one_unused_presented (f : fields) :
  f_invite f = Some Scenario.tok ->
  presents_unused Scenario.one_unused f Scenario.tok.
Proof.
  intros Hf. split; [exact Hf |]. split; [discriminate |].
  exists Scenario.unused_invite. split; [apply lookup_singleton_eq | reflexivity].
Qed.

Lemma raw_key_sent_verbatim_witness :
  presents_unused Scenario.one_unused Cases.with_raw_key Scenario.tok /\
  (~ exists data, Cases.not_a_key = "npub1" +:+ data) /\
  String.length Cases.not_a_key = 64%nat /\
  register_start Scenario.one_unused (JsonValue Cases.with_raw_key) "aa"
  = (Awaiting {| p_invite := Scenario.tok; p_storeName := "Alice";
                 p_call := registration_call Cases.not_a_key "Alice"
                             "https://shop.example" "aa" |},
     [RandomBytes 32;
      CallListener (registration_call Cases.not_a_key "Alice"
                      "https://shop.example" "aa")]).
Proof.
  assert (H1 : presents_unused Scenario.one_unused Cases.with_raw_key Scenario.tok)
    by (by apply one_unused_presented).
  assert (H2 : ~ exists data, Cases.not_a_key = "npub1" +:+ data)
    by (intros [data H]; discriminate H).
  split; [exact H1 |]. split; [exact H2 |]. split; [reflexivity |].
  apply (raw_key_sent_verbatim Scenario.one_unused Cases.with_raw_key
           Scenario.tok Cases.not_a_key "https://shop.example" "Alice" "aa"
           H1 eq_refl H2 eq_refl eq_refl);
    first [reflexivity | discriminate].
Defined.

Lemma last_char_slash (t : string) : last_char (t +:+ "/") = Some "/"%char.
Proof.
  induction t as [| c t IH]; [reflexivity |].
  change (String c t +:+ "/") with (String c (t +:+ "/")).
  cbn [last_char]. rewrite IH. by destruct t.
Qed.

(** X7: [strip_trailing_slash] removes exactly one trailing slash and
    nothing else, so a storefront URL given with or without its final slash
    leads to the same webhook URL. *)
Theorem strip_trailing_slash_spec :
  (forall s : string, strip_trailing_slash (s +:+ "/") = s) /\
  (forall s : string,
     (~ exists t, s = t +:+ "/") -> strip_trailing_slash s = s) /\
  (forall pubkeyHex storeName wooUrl secret : string,
     registration_call pubkeyHex storeName (wooUrl +:+ "/") secret
     = {| c_pubkey := pubkeyHex; c_name := storeName;
          c_webhookUrl := wooUrl +:+ "/wp-json/woo-nostr-market/v1/order-webhook";
          c_webhookSecret := secret |}).
Proof.
  assert (H1 : forall s : string, strip_trailing_slash (s +:+ "/") = s).
  { induction s as [| c s IH]; [reflexivity |].
    change (String c s +:+ "/") with (String c (s +:+ "/")).
    cbn [strip_trailing_slash]. rewrite IH.
    destruct s; reflexivity. }
  split; [exact H1 |]. split.
  - induction s as [| c s IH]; intros Hno; [reflexivity |].
    destruct s as [| c' s'].
    + cbn. destruct (Ascii.eqb_spec c "/") as [-> | _]; [| reflexivity].
      exfalso. apply Hno. by exists EmptyString.
    + change (strip_trailing_slash (String c (String c' s')))
        with (String c (strip_trailing_slash (String c' s'))).
      rewrite IH; [reflexivity |].
      intros [t Ht]. apply Hno. exists (String c t). cbn. by rewrite Ht.
  - intros. unfold registration_call. by rewrite H1.
Qed.

Lemma strip_trailing_slash_spec_witness :
  (~ exists t, "https://shop.example"%string = t +:+ "/") /\
  strip_trailing_slash "https://shop.example" = "https://shop.example"%string.
Proof.
  assert (H : ~ exists t, "https://shop.example"%string = t +:+ "/").
  { intros [t Ht]. apply (f_equal last_char) in Ht.
    rewrite last_char_slash in Ht. discriminate Ht. }
  split; [exact H |].
  exact (proj1 (proj2 strip_trailing_slash_spec) "https://shop.example"%string H).
Defined.

Lemma truthy_false (v : option string) : truthy v = false <-> absent_or_empty v.
Proof.
  unfold absent_or_empty. split.
  - destruct v as [[| a s] |]; try discriminate; auto.
  - by intros [-> | ->].
Qed.

(** X9: the invite is checked before anything else in the body: for an
    invite in the issued format, the answer is "Invalid or expired invite"
    exactly when the [invite] property is missing, empty or not a key of
    the store, and "Invite already used" exactly when it names a consumed
    record, whatever the other fields are. *)
Theorem invite_checked_first :
  forall (inv : store) (f : fields) (random : string),
    issued_format f ->
    (register_start inv (JsonValue f) random
     = (Responded (Json 403 (Error "Invalid or expired invite")), [])
     <-> (absent_or_empty (f_invite f) \/
          exists tok, f_invite f = Some tok /\ inv !! tok = None)) /\
    (register_start inv (JsonValue f) random
     = (Responded (Json 403 (Error "Invite already used")), [])
     <-> (exists tok, f_invite f = Some tok /\ tok <> EmptyString /\
                      consumed inv tok)).
Proof.
  intros inv f random _.
  destruct (truthy (f_invite f)) eqn:Ht.
  - apply truthy_nonempty in Ht as (tok & Hf & Htok).
    destruct (inv !! tok) as [rec |] eqn:Hrec.
    + destruct (used rec) eqn:Hu.
      * rewrite (register_start_consumed inv f tok random Hf Htok)
          by (by exists rec).
        split; split; try discriminate; try reflexivity.
        -- intros [[H | H] | (tok' & H & Hnone)]; congruence.
        -- intros _. exists tok. repeat split; try done. by exists rec.
      * assert (Hinv : presents_unused inv f tok)
          by (split; [done | split; [done | by exists rec]]).
        rewrite (register_start_unused inv f tok random Hinv).
        split; split.
        -- intros H. exfalso.
           repeat match type of H with
                  | (match ?x with _ => _ end) = _ => destruct x
                  | (if ?x then _ else _) = _ => destruct x
                  end; discriminate.
        -- intros [[H | H] | (tok' & H & Hnone)]; congruence.
        -- intros H. exfalso.
           repeat match type of H with
                  | (match ?x with _ => _ end) = _ => destruct x
                  | (if ?x then _ else _) = _ => destruct x
                  end; discriminate.
        -- intros (tok' & H & _ & rec' & Hrec' & Hu'). congruence.
    + assert (Hstart : register_start inv (JsonValue f) random
                       = (Responded (Json 403 (Error "Invalid or expired invite")), [])).
      { unfold register_start, invite_key.
        rewrite (or_else_truthy _ tok "" Hf Htok), Hrec.
        rewrite (proj2 (truthy_nonempty _)) by (by exists tok).
        rewrite bool_decide_eq_false_2 by (by intros [? ?]). reflexivity. }
      rewrite Hstart. split; split; try discriminate; try reflexivity.
      * intros _. right. by exists tok.
      * intros (tok' & H & _ & rec' & Hrec' & _). congruence.
  - assert (Hstart : register_start inv (JsonValue f) random
                     = (Responded (Json 403 (Error "Invalid or expired invite")), [])).
    { unfold register_start. by rewrite Ht. }
    rewrite Hstart. apply truthy_false in Ht.
    split; split; try discriminate; try reflexivity.
    + intros _. by left.
    + intros (tok & H & Htok & _). destruct Ht as [Ht | Ht]; congruence.
Qed.

Lemma invite_checked_first_witness :
  issued_format Cases.unknown_invite /\
  register_start Scenario.one_unused (JsonValue Cases.unknown_invite) "aa"
  = (Responded (Json 403 (Error "Invalid or expired invite")), []).
Proof.
  assert (H : issued_format Cases.unknown_invite)
    by (intros tok [= <-]; vm_compute; reflexivity).
  split; [exact H |].
  apply (proj2 (proj1 (invite_checked_first Scenario.one_unused
                         Cases.unknown_invite "aa" H))).
  right. exists "0123abcd"%string. split; [reflexivity |].
  apply lookup_singleton_ne. discriminate.
Defined.

(** ** More on runs of the server *)

Section RunFacts.
Variable token : string.

Lemma step_keeps_record (s : server) (e : event) (tok : string) (r : invite) :
  invites s !! tok = Some r ->
  exists r',
    invites (step token s e).1 !! tok = Some r' /\
    (creates tok e = false ->
     label r' = label r /\ createdAt r' = createdAt r /\
     (used r = true -> used r' = true)).
Proof.
  intros Hr.
  destruct (step_store_change token s e)
    as [-> | req random lbl now -> Hm Hp -> | id reply now p r0 -> _ _ Hr0 ->].
  - by exists r.
  - destruct (decide (random = tok)) as [-> | Hne].
    + eexists. split; [by rewrite lookup_insert_eq |].
      cbn [creates]. rewrite Hm, Hp, !String.eqb_refl. discriminate.
    + exists r. split; [by rewrite lookup_insert_ne | done].
  - destruct (decide (p_invite p = tok)) as [<- | Hne].
    + eexists. split; [by rewrite lookup_insert_eq |].
      intros _. assert (r0 = r) as -> by congruence. done.
    + exists r. split; [by rewrite lookup_insert_ne | done].
Qed.

Lemma run_keeps_record (trace : list event) :
  forall (s : server) (tok : string) (r : invite),
    invites s !! tok = Some r ->
    exists r',
      invites (run token s trace).1 !! tok = Some r' /\
      (Forall (fun e => creates tok e = false) trace ->
       label r' = label r /\ createdAt r' = createdAt r /\
       (used r = true -> used r' = true)).
Proof.
  induction trace as [| e trace IH]; intros s tok r Hr.
  - by exists r.
  - destruct (step_keeps_record s e tok r Hr) as (r1 & Hr1 & Hkeep1).
    cbn [run]. destruct (step token s e) as [s1 out1]. cbn [fst] in Hr1.
    destruct (IH s1 tok r1 Hr1) as (r2 & Hr2 & Hkeep2).
    destruct (run token s1 trace) as [s2 out2]. cbn [fst] in *.
    exists r2. split; [exact Hr2 |].
    intros Hfresh. inversion Hfresh as [| ? ? He Hrest]; subst.
    destruct (Hkeep1 He) as (Hl1 & Hc1 & Hu1).
    destruct (Hkeep2 Hrest) as (Hl2 & Hc2 & Hu2).
    repeat split; [congruence | congruence | auto].
Qed.

End RunFacts.

(** X13: the server never deletes an invite: a token that is in the store
    is still there after any run; and unless a later creation draws the
    same token again, its record keeps its label and its creation time, and
    stays used once it is used. *)
Theorem records_are_kept :
  forall (token : string) (trace : list event) (s : server) (tok : string)
         (r : invite),
    invites s !! tok = Some r ->
    exists r',
      invites (run token s trace).1 !! tok = Some r' /\
      (Forall (fun e => creates tok e = false) trace ->
       label r' = label r /\ createdAt r' = createdAt r /\
       (used r = true -> used r' = true)).
Proof. intros token trace. apply run_keeps_record. Qed.

Lemma records_are_kept_witness :
  invites {| invites := Scenario.one_unused; awaiting := ∅; next_request := 0 |}
    !! Scenario.tok = Some Scenario.unused_invite /\
  exists r',
    invites (run Scenario.admin_token
               {| invites := Scenario.one_unused; awaiting := ∅; next_request := 0 |}
               [Request (Scenario.register_request "Alice") "aa" 1001;
                ListenerSettles 0 Scenario.accepted 1002]).1 !! Scenario.tok
    = Some r' /\
    label r' = "friend"%string.
Proof.
  assert (H : invites {| invites := Scenario.one_unused; awaiting := ∅;
                         next_request := 0 |} !! Scenario.tok
              = Some Scenario.unused_invite) by apply lookup_singleton_eq.
  split; [exact H |].
  destruct (records_are_kept Scenario.admin_token
              [Request (Scenario.register_request "Alice") "aa" 1001;
               ListenerSettles 0 Scenario.accepted 1002]
              _ _ _ H) as (r' & Hr' & Hkeep).
  exists r'. split; [exact Hr' |].
  apply Hkeep. repeat constructor.
Defined.

(** ** What decoding keeps *)

Section Injectivity.
Import CodecSpec.

Lemma number_cons (b : bool) (l : list bool) :
  number (b :: l) = Z.b2z b * 2 ^ Z.of_nat (length l) + number l.
Proof.
  change (b :: l) with ([b] ++ l). rewrite number_app.
  change (number [b]) with (2 * 0 + Z.b2z b). lia.
Qed.

Lemma number_inj (l1 : list bool) :
  forall l2, length l1 = length l2 -> number l1 = number l2 -> l1 = l2.
Proof.
  induction l1 as [| b1 l1 IH]; intros [| b2 l2] Hlen Hnum; try discriminate.
  - reflexivity.
  - injection Hlen as Hlen. rewrite !number_cons, Hlen in Hnum.
    pose proof (number_bound l1) as B1. pose proof (number_bound l2) as B2.
    rewrite Hlen in B1.
    assert (Hpos : 0 < 2 ^ Z.of_nat (length l2)) by (apply Z.pow_pos_nonneg; lia).
    assert (b1 = b2) as -> by (destruct b1, b2; cbn [Z.b2z] in Hnum; try reflexivity; nia).
    f_equal. apply IH; [assumption | lia].
Qed.

Lemma regroup8_eq_iff (l1 : list bool) :
  forall l2,
    length l1 = length l2 ->
    (regroup8 l1 = regroup8 l2
     <-> take (8 * (length l1 / 8)) l1 = take (8 * (length l1 / 8)) l2).
Proof.
  remember (length l1) as n eqn:Hn. revert l1 Hn.
  induction n as [n IH] using lt_wf_ind. intros l1 Hn l2 Hlen.
  destruct (le_lt_dec 8 n) as [Hge | Hlt].
  - rewrite <- (take_drop 8 l1), <- (take_drop 8 l2).
    set (h1 := take 8 l1). set (t1 := drop 8 l1).
    set (h2 := take 8 l2). set (t2 := drop 8 l2).
    assert (Hh1 : length h1 = 8%nat) by (unfold h1; rewrite length_take; lia).
    assert (Hh2 : length h2 = 8%nat) by (unfold h2; rewrite length_take; lia).
    assert (Ht1 : length t1 = (n - 8)%nat) by (unfold t1; rewrite length_drop; lia).
    assert (Ht2 : length t2 = (n - 8)%nat) by (unfold t2; rewrite length_drop; lia).
    rewrite !regroup8_full by assumption.
    assert (Hk : (8 * (n / 8) = 8 + 8 * ((n - 8) / 8))%nat).
    { replace n with (1 * 8 + (n - 8))%nat at 1 by lia.
      rewrite Nat.div_add_l by lia. lia. }
    rewrite Hk.
    rewrite (take_app_add' h1 t1 8) by done.
    rewrite (take_app_add' h2 t2 8) by done.
    specialize (IH (n - 8)%nat ltac:(lia) t1 (eq_sym Ht1) t2 ltac:(congruence)).
    split.
    + intros [= Hnum Hrest]. apply IH in Hrest.
      apply number_inj in Hnum; [| congruence]. by rewrite Hnum, Hrest.
    + intros Happ. apply app_inj_1 in Happ as [Hh Ht]; [| congruence].
      rewrite Hh. f_equal. by apply IH.
  - rewrite (regroup8_short l1), (regroup8_short l2) by lia.
    rewrite Nat.div_small by lia. done.
Qed.

Lemma hex_digit_inj (a b : Z) :
  0 <= a < 16 -> 0 <= b < 16 -> hex_digit a = hex_digit b -> a = b.
Proof.
  intros Ha Hb H.
  assert (Hall : forallb (fun x => forallb (fun y =>
                    implb (Ascii.eqb (hex_digit x) (hex_digit y)) (x =? y))
                    (map Z.of_nat (seq 0 16))) (map Z.of_nat (seq 0 16)) = true)
    by (vm_compute; reflexivity).
  rewrite forallb_forall in Hall.
  assert (Hin : forall v, 0 <= v < 16 -> In v (map Z.of_nat (seq 0 16))).
  { intros v Hv. apply in_map_iff. exists (Z.to_nat v).
    split; [lia | apply in_seq; lia]. }
  specialize (Hall a (Hin a Ha)). rewrite forallb_forall in Hall.
  specialize (Hall b (Hin b Hb)).
  apply Ascii.eqb_eq in H. rewrite H in Hall. cbn [implb] in Hall.
  by apply Z.eqb_eq.
Qed.

Lemma hex_inj (bs1 : list Z) :
  forall bs2,
    Forall (fun b => 0 <= b < 256) bs1 -> Forall (fun b => 0 <= b < 256) bs2 ->
    hex bs1 = hex bs2 -> bs1 = bs2.
Proof.
  induction bs1 as [| b1 bs1 IH]; intros [| b2 bs2] H1 H2 Hhex; try discriminate.
  - reflexivity.
  - inversion H1 as [| ? ? Hb1 H1']; inversion H2 as [| ? ? Hb2 H2']; subst.
    cbn [hex] in Hhex. injection Hhex as Hhi Hlo Hrest.
    assert (Hq : b1 / 16 = b2 / 16).
    { apply hex_digit_inj; [| | assumption].
      - split; [apply Z.div_pos; lia | apply Z.div_lt_upper_bound; lia].
      - split; [apply Z.div_pos; lia | apply Z.div_lt_upper_bound; lia]. }
    assert (Hr : b1 mod 16 = b2 mod 16).
    { apply hex_digit_inj;
        [apply Z.mod_pos_bound; lia | apply Z.mod_pos_bound; lia | assumption]. }
    f_equal; [| by apply IH].
    rewrite (Z.div_mod b1 16), (Z.div_mod b2 16) by lia. congruence.
Qed.

End Injectivity.

(** X15: decoding loses nothing but the checksum and the padding: two
    identifiers of the same length over the alphabet decode to the same
    key exactly when their payload bits (five per character, the last six
    characters set aside) agree up to the last whole byte. *)
Theorem npubToHex_keeps_payload :
  forall data1 data2 : string,
    Forall (fun c => c ∈ CodecSpec.alphabet) (chars data1) ->
    Forall (fun c => c ∈ CodecSpec.alphabet) (chars data2) ->
    String.length data1 = String.length data2 ->
    let whole := (8 * (5 * (String.length data1 - 6) / 8))%nat in
    npubToHex ("npub1" +:+ data1) = npubToHex ("npub1" +:+ data2)
    <-> take whole (payload_bits data1) = take whole (payload_bits data2).
Proof.
  intros data1 data2 H1 H2 Hlen whole.
  rewrite !npubToHex_in_alphabet by assumption.
  unfold CodecSpec.decode_data. fold (payload_bits data1) (payload_bits data2).
  assert (Hl : forall d, length (payload_bits d) = (5 * (String.length d - 6))%nat).
  { intros d. unfold payload_bits.
    by rewrite length_bits, length_drop_last, length_map, length_chars. }
  assert (Hiff := regroup8_eq_iff (payload_bits data1) (payload_bits data2)
                    ltac:(rewrite !Hl; congruence)).
  rewrite Hl in Hiff. fold whole in Hiff. rewrite <- Hiff.
  split.
  - intros [= Hhex]. apply hex_inj in Hhex; [assumption | |];
      apply regroup8_bytes.
  - by intros ->.
Qed.

Lemma npubToHex_keeps_payload_witness :
  Forall (fun c => c ∈ CodecSpec.alphabet) (chars "qqqqqqqq") /\
  Forall (fun c => c ∈ CodecSpec.alphabet) (chars "qpqqqqqq") /\
  take 8 (payload_bits "qqqqqqqq") = take 8 (payload_bits "qpqqqqqq") /\
  npubToHex ("npub1" +:+ "qqqqqqqq") = npubToHex ("npub1" +:+ "qpqqqqqq").
Proof.
  assert (H1 : Forall (fun c => c ∈ CodecSpec.alphabet) (chars "qqqqqqqq"))
    by (apply (bool_decide_unpack _); vm_compute; exact I).
  assert (H2 : Forall (fun c => c ∈ CodecSpec.alphabet) (chars "qpqqqqqq"))
    by (apply (bool_decide_unpack _); vm_compute; exact I).
  assert (H3 : take 8 (payload_bits "qqqqqqqq") = take 8 (payload_bits "qpqqqqqq"))
    by reflexivity.
  split; [exact H1 |]. split; [exact H2 |]. split; [exact H3 |].
  exact (proj2 (npubToHex_keeps_payload "qqqqqqqq" "qpqqqqqq" H1 H2 eq_refl) H3).
Defined.

(** ** Persistence *)

Section PersistenceFacts.
Context {text : Type}.
Variable JSON_stringify : store -> text.
Variable JSON_parse : text -> option store.
Hypothesis parse_stringify : forall s : store, JSON_parse (JSON_stringify s) = Some s.

(** An event that does not lead to [saveInvites()] has not changed the
    store. *)
Lemma unsaved_step_keeps_store (token : string) (s : server) (e : event) :
  reaches_save (step token s e).2 = false ->
  invites (step token s e).1 = invites s.
Proof.
  destruct e as [req random now | id reply now]; cbn [step].
  - unfold handle_request.
    destruct (r_method req); try reflexivity.
    + destruct (String.eqb (r_pathname req) "/api/invites"); [reflexivity |].
      destruct (String.eqb (r_pathname req) "/api/health"); reflexivity.
    + destruct (String.eqb (r_pathname req) "/api/invites").
      * unfold create_invite. cbn [invites].
        destruct (negb _ || negb _); [reflexivity |].
        destruct (r_body req); try reflexivity.
        cbn [map app fst snd reaches_save existsb orb]. discriminate.
      * destruct (String.eqb (r_pathname req) "/api/register"); [| reflexivity].
        cbn [invites].
        by destruct (register_start _ _ _) as [[r | p] eff].
  - destruct (awaiting s !! id) as [p |]; [| reflexivity].
    destruct (register_finish_cases (invites s) p reply now)
      as [[msg H] | (Hok & r & Hr & H)]; rewrite H; cbn; [reflexivity | discriminate].
Qed.

Lemma run_saving_restorable (token : string) (trace : list (event * write_outcome)) :
  forall (s : server) (file : snapshot),
    loadInvites JSON_parse file ∅ = invites s ->
    Forall (fun ew => ew.2 = Written) trace ->
    loadInvites JSON_parse (run_saving JSON_stringify token s file trace).2 ∅
    = invites (run_saving JSON_stringify token s file trace).1.
Proof.
  induction trace as [| [e w] trace IH]; intros s file Hinv Hw; [exact Hinv |].
  inversion Hw as [| ? ? Hw1 Hw']; subst. cbn [snd] in Hw1. subst w.
  cbn [run_saving]. unfold step_saving.
  pose proof (unsaved_step_keeps_store token s e) as Hkeep.
  destruct (step token s e) as [s' out]. cbn [fst snd] in Hkeep.
  apply IH; [| assumption].
  destruct (reaches_save out).
  - cbn [saveInvites loadInvites]. by rewrite parse_stringify.
  - rewrite Hkeep by reflexivity. exact Hinv.
Qed.

End PersistenceFacts.

(** X16: as long as every write of the snapshot succeeds (and
    [JSON.parse] gives back what [JSON.stringify] was given), the file on
    disk always decodes to the store in memory: a server booted from the
    file, run through any events and then restarted, finds exactly the
    store it had. *)
Theorem restart_restores_store :
  forall (text : Type) (JSON_stringify : store -> text)
         (JSON_parse : text -> option store),
    (forall s : store, JSON_parse (JSON_stringify s) = Some s) ->
    forall (token : string) (file : snapshot)
           (trace : list (event * write_outcome)),
      Forall (fun ew => ew.2 = Written) trace ->
      invites (boot JSON_parse
                 (run_saving JSON_stringify token (boot JSON_parse file) file trace).2)
      = invites (run_saving JSON_stringify token (boot JSON_parse file) file trace).1.
Proof.
  intros text JSON_stringify JSON_parse Hjson token file trace Hw.
  apply (run_saving_restorable JSON_stringify JSON_parse Hjson); [reflexivity | exact Hw].
Qed.

Lemma restart_restores_store_witness :
  (forall s : store, Some (id s) = Some s) /\
  invites (boot (text := store) Some
             (run_saving id Scenario.admin_token (boot Some NoFile) NoFile
                [(Request Scenario.create_request Scenario.tok 1000, Written)]).2)
  = invites (run_saving id Scenario.admin_token (boot (text := store) Some NoFile)
               NoFile
               [(Request Scenario.create_request Scenario.tok 1000, Written)]).1.
Proof.
  assert (H : forall s : store, Some (id s) = Some s) by reflexivity.
  split; [exact H |].
  apply (restart_restores_store store id Some H Scenario.admin_token NoFile
           [(Request Scenario.create_request Scenario.tok 1000, Written)]).
  repeat constructor.
Defined.

(** ** The identifier checks of the handler *)

Lemma npubToHex_throws (s : string) :
  (exists msg, npubToHex s = Throw msg) <->
  (exists data, s = "npub1" +:+ data /\
                exists c, c ∈ chars data /\ c ∉ CodecSpec.alphabet).
Proof.
  split.
  - intros [msg H]. unfold npubToHex in H.
    destruct (startsWith s "npub1") eqn:Hp; [| discriminate].
    apply startsWith_npub1 in Hp. exists (slice 5 s). split; [exact Hp |].
    cbn [negb] in H.
    destruct (alphabet_dec (chars (slice 5 s))) as [Hall | Hex].
    + rewrite values_loop_all in H by assumption. discriminate.
    + apply Exists_exists in Hex. exact Hex.
  - intros (data & -> & c & Hc & Hnot). exists "Invalid npub character"%string.
    rewrite npubToHex_prefixed, values_loop_some; [reflexivity |].
    apply Exists_exists. by exists c.
Qed.

(** * Further properties of the server on requests as they arrive *)

(** ** The registration workflow on arbitrary bodies *)

(** X4: a registration whose invite, if truthy, prints as hexadecimal
    digits reaches the listener exactly when that invite is truthy and
    names an unused record of the store, [npub] is a string that decodes to
    64 characters, [wooUrl] is a non-empty string and [storeName] is
    truthy, of whatever type. *)
Theorem listener_called_iff :
  forall (inv : Wire.store) (v : JSON.value) (random : string),
    Wire.issued_key v ->
    ((exists p effects,
        Wire.register_start inv (Wire.Parsed v) random = (Wire.Awaiting p, effects)) <->
     (exists key npub wooUrl pubkeyHex,
        Wire.presents_unused inv v key /\
        JSON.field v "npub" = JSON.Str npub /\
        JSON.field v "wooUrl" = JSON.Str wooUrl /\ wooUrl <> EmptyString /\
        JSON.truthy (JSON.field v "storeName") = true /\
        npubToHex npub = Return pubkeyHex /\ String.length pubkeyHex = 64%nat)).
Proof.
  intros inv v random _. split.
  - intros (p & effects & H).
    destruct (wire_register_start_awaiting _ _ _ _ _ H)
      as (v' & key & [= <-] & Hinv & _ & Hv & _).
    apply wire_validate_awaiting in Hv
      as (npub & wooUrl & h & Hn & Hw & Hw' & Hs & Hdec & Hlen & _).
    exists key, npub, wooUrl, h. repeat split; assumption.
  - intros (key & npub & wooUrl & h & Hinv & Hn & Hw & Hw' & Hs & Hdec & Hlen).
    rewrite (wire_register_start_presented inv v key random Hinv).
    do 2 eexists. apply wire_validate_awaiting.
    exists npub, wooUrl, h. repeat split; try assumption.
Qed.

Lemma traffic_presents (storeName : JSON.value) :
  Wire.presents_unused Traffic.one_unused (Traffic.registration storeName)
    Scenario.tok.
Proof.
  exists (JSON.Str Scenario.tok). split; [reflexivity |]. split; [reflexivity |].
  split; [reflexivity |]. exists Traffic.unused_invite.
  split; [apply lookup_singleton_eq | reflexivity].
Qed.

Lemma traffic_issued (storeName : JSON.value) :
  Wire.issued_key (Traffic.registration storeName).
Proof. intros invite key [= <-] _ [= <-]. vm_compute. reflexivity. Qed.

Lemma listener_called_iff_witness :
  Wire.issued_key (Traffic.registration (JSON.Num "7")) /\
  exists p effects,
    Wire.register_start Traffic.one_unused
      (Wire.Parsed (Traffic.registration (JSON.Num "7"))) "aa"
    = (Wire.Awaiting p, effects).
Proof.
  assert (H : Wire.issued_key (Traffic.registration (JSON.Num "7")))
    by apply traffic_issued.
  split; [exact H |].
  apply (proj2 (listener_called_iff Traffic.one_unused
                  (Traffic.registration (JSON.Num "7")) "aa" H)).
  exists Scenario.tok, generator_npub, "https://shop.example/"%string, generator_hex.
  split; [apply traffic_presents |].
  split; [reflexivity |]. split; [reflexivity |]. split; [discriminate |].
  split; [reflexivity |]. split; [vm_compute; reflexivity | reflexivity].
Defined.




(** X10: for a request that presents an unused invite, the answer is the
    "Missing required fields" 400 exactly when [npub], [wooUrl] or
    [storeName] is falsy: missing, [null], [false], zero or the empty
    string. *)
Theorem missing_fields_iff :
  forall (inv : Wire.store) (v : JSON.value) (key random : string),
    Wire.presents_unused inv v key ->
    (Wire.register_start inv (Wire.Parsed v) random
     = (Wire.Responded
          (Wire.Json 400
             (Wire.Error "Missing required fields: npub, wooUrl, storeName")), [])
     <-> (JSON.falsy (JSON.field v "npub") \/ JSON.falsy (JSON.field v "wooUrl")
          \/ JSON.falsy (JSON.field v "storeName"))).
Proof.
  intros inv v key random Hinv.
  rewrite (wire_register_start_presented inv v key random Hinv).
  rewrite <- !json_truthy_false. unfold Wire.validate_and_call.
  destruct (JSON.truthy (JSON.field v "npub")),
    (JSON.truthy (JSON.field v "wooUrl")),
    (JSON.truthy (JSON.field v "storeName"));
    cbn [negb orb]; try (split; [auto | reflexivity]).
  split; [| by intros [H | [H | H]]].
  intros H. exfalso.
  repeat match type of H with
         | (match ?x with _ => _ end) = _ => destruct x
         | (if ?x then _ else _) = _ => destruct x
         end; discriminate.
Qed.

Lemma missing_fields_iff_witness :
  Wire.presents_unused Traffic.one_unused (Traffic.registration (JSON.Num "0"))
    Scenario.tok /\
  JSON.falsy (JSON.field (Traffic.registration (JSON.Num "0")) "storeName") /\
  Wire.register_start Traffic.one_unused
    (Wire.Parsed (Traffic.registration (JSON.Num "0"))) "aa"
  = (Wire.Responded
       (Wire.Json 400
          (Wire.Error "Missing required fields: npub, wooUrl, storeName")), []).
Proof.
  assert (H : Wire.presents_unused Traffic.one_unused
                (Traffic.registration (JSON.Num "0")) Scenario.tok)
    by apply traffic_presents.
  assert (H2 : JSON.falsy (JSON.field (Traffic.registration (JSON.Num "0")) "storeName")).
  { right. right. right. left. reflexivity. }
  split; [exact H |]. split; [exact H2 |].
  exact (proj2 (missing_fields_iff Traffic.one_unused _ Scenario.tok "aa" H)
           (or_intror (or_intror H2))).
Defined.

(** X18: for a request that presents an unused invite and whose three
    fields are truthy, the answer is "Invalid npub format" exactly when
    [npub] is not a string, or is a string that carries the prefix and a
    character outside the alphabet, and "Invalid npub: decoded key is wrong
    length" exactly when it is a string that decodes to something that is
    not 64 characters long. *)
Theorem identifier_errors_iff :
  forall (inv : Wire.store) (v : JSON.value) (key random : string),
    Wire.presents_unused inv v key ->
    JSON.truthy (JSON.field v "npub") = true ->
    JSON.truthy (JSON.field v "wooUrl") = true ->
    JSON.truthy (JSON.field v "storeName") = true ->
    (Wire.register_start inv (Wire.Parsed v) random
     = (Wire.Responded (Wire.Json 400 (Wire.Error "Invalid npub format")), [])
     <-> ((forall s, JSON.field v "npub" <> JSON.Str s) \/
          exists data, JSON.field v "npub" = JSON.Str ("npub1" +:+ data) /\
                       exists c, c ∈ chars data /\ c ∉ CodecSpec.alphabet)) /\
    (Wire.register_start inv (Wire.Parsed v) random
     = (Wire.Responded
          (Wire.Json 400 (Wire.Error "Invalid npub: decoded key is wrong length")), [])
     <-> (exists s h, JSON.field v "npub" = JSON.Str s /\
                      npubToHex s = Return h /\ String.length h <> 64%nat)).
Proof.
  intros inv v key random Hinv Hn Hw Hs.
  rewrite (wire_register_start_presented inv v key random Hinv).
  unfold Wire.validate_and_call. rewrite Hn, Hw, Hs. cbn [negb orb].
  destruct (JSON.field v "npub") as [| | b | n | s | l | m] eqn:En;
    cbn [Wire.decode];
    try (split; split;
         [ intros _; left; intros s; discriminate | reflexivity
         | discriminate | intros (s & h & H & _); discriminate ]).
  destruct (npubToHex s) as [h | msg] eqn:Hdec.
  - destruct (String.length h =? 64)%nat eqn:Hlen; cbn [negb].
    + apply Nat.eqb_eq in Hlen. split; split.
      * intros H. exfalso.
        destruct (Wire.without_trailing_slash _); discriminate.
      * intros [H | (data & [= ->] & Hbad)]; [by destruct (H s) |].
        exfalso.
        assert (exists m, npubToHex ("npub1" +:+ data) = Throw m) as [m Hm]
          by (apply npubToHex_throws; by exists data).
        congruence.
      * intros H. exfalso.
        destruct (Wire.without_trailing_slash _); discriminate.
      * intros (s' & h' & [= <-] & Hd & Hne). congruence.
    + apply Nat.eqb_neq in Hlen. split; split; try discriminate; try reflexivity.
      * intros [H | (data & [= ->] & Hbad)]; [by destruct (H s) |].
        exfalso.
        assert (exists m, npubToHex ("npub1" +:+ data) = Throw m) as [m Hm]
          by (apply npubToHex_throws; by exists data).
        congruence.
      * intros _. by exists s, h.
  - split; split; try discriminate; try reflexivity.
    + intros _. right.
      assert (Hthrow : exists m, npubToHex s = Throw m) by (by exists msg).
      apply npubToHex_throws in Hthrow as (data & -> & Hbad). by exists data.
    + intros (s' & h' & [= <-] & Hd & _). congruence.
Qed.

Lemma identifier_errors_iff_witness :
  Wire.presents_unused Traffic.one_unused
    (JSON.Obj [ ("invite"%string, JSON.Str Scenario.tok);
                ("npub"%string, JSON.Num "5");
                ("wooUrl"%string, JSON.Str "https://shop.example");
                ("storeName"%string, JSON.Str "Alice") ]) Scenario.tok /\
  Wire.register_start Traffic.one_unused
    (Wire.Parsed
       (JSON.Obj [ ("invite"%string, JSON.Str Scenario.tok);
                   ("npub"%string, JSON.Num "5");
                   ("wooUrl"%string, JSON.Str "https://shop.example");
                   ("storeName"%string, JSON.Str "Alice") ])) "aa"
  = (Wire.Responded (Wire.Json 400 (Wire.Error "Invalid npub format")), []).
Proof.
  assert (H : Wire.presents_unused Traffic.one_unused
                (JSON.Obj [ ("invite"%string, JSON.Str Scenario.tok);
                            ("npub"%string, JSON.Num "5");
                            ("wooUrl"%string, JSON.Str "https://shop.example");
                            ("storeName"%string, JSON.Str "Alice") ]) Scenario.tok).
  { exists (JSON.Str Scenario.tok). split; [reflexivity |]. split; [reflexivity |].
    split; [reflexivity |]. exists Traffic.unused_invite.
    split; [apply lookup_singleton_eq | reflexivity]. }
  split; [exact H |].
  apply (proj2 (proj1 (identifier_errors_iff Traffic.one_unused _ Scenario.tok "aa"
                         H eq_refl eq_refl eq_refl))).
  left. intros s. discriminate.
Defined.

(** ** The invite store and the routes on arbitrary requests *)

(** X11: an invite creation writes to the store exactly when the header is
    the admin credential and the body is JSON other than [null]: the store
    then holds, under the drawn token, an unused record with the given
    label (the empty string for a falsy label), stamped with the clock
    reading, every other record is as before, and listing the invites with
    the same header returns that store.  It is answered 200 when moreover
    the log line can print the label, and 400 with the record kept when it
    cannot. *)
Theorem create_then_list :
  forall (token : string) (auth : option string) (b : Wire.body) (random : string)
         (now : Z) (inv : Wire.store),
    let result := Wire.create_invite token auth b random now inv in
    (Wire.status_of result.1.1 = Some 200
     <-> admin_header_ok token auth /\
         exists v lbl, b = Wire.Parsed v /\ JSON.prop v "label" = Return lbl /\
                       JSON.prints (JSON.or_else lbl (JSON.Str "no label"))) /\
    (~ admin_header_ok token auth \/
     (forall v lbl, b = Wire.Parsed v -> JSON.prop v "label" <> Return lbl) ->
     result.1.2 = inv) /\
    (forall (v lbl : JSON.value),
       admin_header_ok token auth -> b = Wire.Parsed v ->
       JSON.prop v "label" = Return lbl ->
       result.1.2 !! random
       = Some {| Wire.label := JSON.or_else lbl (JSON.Str "");
                 Wire.createdAt := now; Wire.used := false;
                 Wire.usedBy := None; Wire.usedAt := None |} /\
       (forall tok, tok <> random -> result.1.2 !! tok = inv !! tok) /\
       (JSON.prints (JSON.or_else lbl (JSON.Str "no label")) ->
        result.1.1
        = Wire.Json 200
            (Wire.InviteCreated random
               ("https://nostr.bitcoinbutlers.com?invite=" +:+ random))) /\
       (forall msg, JSON.toString (JSON.or_else lbl (JSON.Str "no label")) = Throw msg ->
                    result.1.1 = Wire.Json 400 (Wire.Error msg)) /\
       Wire.list_invites token auth result.1.2
       = Wire.Json 200 (Wire.Invites result.1.2)).
Proof.
  intros token auth b random now inv result. subst result.
  unfold Wire.create_invite, Wire.list_invites.
  destruct (negb (truthy auth) || negb (strict_eq auth ("Bearer " +:+ token))) eqn:E.
  - assert (Hno : ~ admin_header_ok token auth)
      by (intros Hok; apply admin_check in Hok; congruence).
    cbn [fst snd Wire.status_of]. split; [| split]; try done.
    split; [discriminate | by intros [? _]].
  - apply admin_check in E. destruct b as [msg | v]; cbn [fst snd Wire.status_of].
    + split; [| split]; try done.
      split; [discriminate | by intros (_ & ? & ? & ? & _)].
    + destruct (JSON.prop v "label") as [lbl | msg] eqn:Hl.
      * unfold JSON.prints.
        destruct (JSON.toString (JSON.or_else lbl (JSON.Str "no label")))
          as [printed | msg] eqn:Hprint; cbn [fst snd Wire.status_of].
        -- split; [| split].
           ++ split; [| done]. intros _. split; [done |].
              exists v, lbl. rewrite Hprint. eauto.
           ++ intros [Hno | Hnull]; [contradiction | by destruct (Hnull v lbl)].
           ++ intros v' lbl' _ [= <-] Hl'.
              assert (lbl' = lbl) as -> by congruence.
              rewrite lookup_insert_eq. repeat split; try done.
              ** intros tok Hne. by rewrite lookup_insert_ne.
              ** intros msg. rewrite Hprint. discriminate.
        -- split; [| split].
           ++ split; [discriminate |].
              intros (_ & v' & lbl' & [= <-] & Hl' & s & Hs).
              assert (lbl' = lbl) as -> by congruence. congruence.
           ++ intros [Hno | Hnull]; [contradiction | by destruct (Hnull v lbl)].
           ++ intros v' lbl' _ [= <-] Hl'.
              assert (lbl' = lbl) as -> by congruence.
              rewrite lookup_insert_eq. repeat split; try done.
              ** intros tok Hne. by rewrite lookup_insert_ne.
              ** intros [s Hs]. congruence.
              ** intros msg'. rewrite Hprint. by intros [= <-].
      * cbn [fst snd Wire.status_of]. split; [| split]; try done.
        -- split; [discriminate |].
           intros (_ & v' & lbl' & [= <-] & Hl' & _). congruence.
        -- intros v' lbl' _ [= <-] Hl'. congruence.
Qed.

Lemma create_then_list_witness :
  admin_header_ok Scenario.admin_token (Some "Bearer s3cret"%string) /\
  (Wire.create_invite Scenario.admin_token (Some "Bearer s3cret"%string)
     (Wire.Parsed (JSON.Obj [("label"%string, Traffic.unprintable)]))
     Scenario.tok 1000 ∅).1.2 !! Scenario.tok
  = Some {| Wire.label := Traffic.unprintable; Wire.createdAt := 1000;
            Wire.used := false; Wire.usedBy := None; Wire.usedAt := None |}.
Proof.
  assert (H : admin_header_ok Scenario.admin_token (Some "Bearer s3cret"%string)).
  { exists "Bearer s3cret"%string. split; [reflexivity |]. split; [discriminate |].
    reflexivity. }
  split; [exact H |].
  exact (proj1 (proj2 (proj2 (create_then_list Scenario.admin_token
           (Some "Bearer s3cret"%string)
           (Wire.Parsed (JSON.Obj [("label"%string, Traffic.unprintable)]))
           Scenario.tok 1000 ∅)) _ Traffic.unprintable H eq_refl eq_refl)).
Defined.

(** X12: every request other than the two [POST] endpoints whose target
    [new URL] accepts (any [GET], another method, a [POST] to another
    path), and every [OPTIONS] request whatever its target, is answered at
    once, with one response and no other effect, and leaves the invite
    store and the registrations in flight as they were; a request other
    than [OPTIONS] whose target [new URL] refuses gets no response at all,
    whatever its route. *)
Theorem other_routes_read_only :
  forall (token : string) (s : Wire.server) (req : Wire.request) (random : string)
         (now : Z),
    (Wire.r_method req <> OPTIONS -> Wire.r_pathname req = None ->
     Wire.step token s (Wire.Request req random now) = None) /\
    ((Wire.r_method req = POST ->
      Wire.r_pathname req <> Some "/api/invites"%string /\
      Wire.r_pathname req <> Some "/api/register"%string) ->
     Wire.r_method req = OPTIONS \/ is_Some (Wire.r_pathname req) ->
     exists r,
       Wire.step token s (Wire.Request req random now)
       = Some ({| Wire.invites := Wire.invites s; Wire.awaiting := Wire.awaiting s;
                  Wire.next_request := S (Wire.next_request s) |},
               [Wire.Responds (Wire.next_request s) r]) /\
       (Wire.r_method req = OPTIONS -> r = Wire.NoContent) /\
       (Wire.r_method req = GET -> Wire.r_pathname req = Some "/api/health"%string ->
        r = Wire.Json 200 Wire.StatusOk) /\
       (Wire.r_method req = GET -> Wire.r_pathname req = Some "/api/invites"%string ->
        r = Wire.list_invites token (Node.field_value <$> Wire.r_authorization req)
              (Wire.invites s)) /\
       (Wire.r_method req = OtherMethod \/ Wire.r_method req = POST ->
        r = Wire.Json 404 (Wire.Error "Not found"))).
Proof.
  intros token s req random now. cbn [Wire.step]. unfold Wire.handle_request.
  split.
  - intros Hm Hp. rewrite Hp. by destruct (Wire.r_method req).
  - intros Hpost Htarget.
    assert (Hne : "/api/invites"%string <> "/api/health"%string) by discriminate.
    destruct (Wire.r_method req) eqn:Hm.
    + destruct Htarget as [? | [pathname Hp]]; [discriminate |]. rewrite Hp.
      unfold Wire.route. cbn [Wire.invites Wire.awaiting Wire.next_request].
      destruct (String.eqb_spec pathname "/api/invites") as [-> | Hp1];
        [| destruct (String.eqb_spec pathname "/api/health") as [-> | Hp2]];
        (eexists; split; [reflexivity |]);
        repeat split; try (intros [? | ?]); intros; congruence.
    + destruct Htarget as [? | [pathname Hp]]; [discriminate |]. rewrite Hp in *.
      destruct (Hpost eq_refl) as [H1 H2].
      unfold Wire.route.
      destruct (String.eqb_spec pathname "/api/invites") as [-> | _]; [done |].
      destruct (String.eqb_spec pathname "/api/register") as [-> | _]; [done |].
      eexists. split; [reflexivity |].
      repeat split; try (intros [? | ?]); intros; congruence.
    + eexists. split; [by destruct (Wire.r_pathname req) |].
      repeat split; try (intros [? | ?]); intros; congruence.
    + destruct Htarget as [? | [pathname Hp]]; [discriminate |]. rewrite Hp.
      eexists. split; [reflexivity |].
      repeat split; try (intros [? | ?]); intros; congruence.
Qed.

Lemma other_routes_read_only_witness :
  Wire.r_method Traffic.refused_target <> OPTIONS /\
  Wire.r_pathname Traffic.refused_target = None /\
  Wire.step Scenario.admin_token Wire.initial
    (Wire.Request Traffic.refused_target "" 0) = None /\
  (Wire.r_method Traffic.preflight = OPTIONS \/
   is_Some (Wire.r_pathname Traffic.preflight)) /\
  Wire.step Scenario.admin_token Wire.initial (Wire.Request Traffic.preflight "" 0)
  = Some ({| Wire.invites := ∅; Wire.awaiting := ∅; Wire.next_request := 1 |},
          [Wire.Responds 0 Wire.NoContent]).
Proof.
  assert (H1 : Wire.r_method Traffic.refused_target <> OPTIONS) by discriminate.
  assert (H2 : Wire.r_pathname Traffic.refused_target = None) by reflexivity.
  assert (H3 : Wire.r_method Traffic.preflight = POST ->
               Wire.r_pathname Traffic.preflight <> Some "/api/invites"%string /\
               Wire.r_pathname Traffic.preflight <> Some "/api/register"%string)
    by discriminate.
  assert (H4 : Wire.r_method Traffic.preflight = OPTIONS \/
               is_Some (Wire.r_pathname Traffic.preflight)) by (by left).
  split; [exact H1 |]. split; [exact H2 |].
  split.
  - exact (proj1 (other_routes_read_only Scenario.admin_token Wire.initial
                    Traffic.refused_target "" 0) H1 H2).
  - split; [exact H4 |].
    destruct (proj2 (other_routes_read_only Scenario.admin_token Wire.initial
                       Traffic.preflight "" 0) H3 H4) as (r & Hstep & Hopt & _).
    rewrite Hstep, (Hopt eq_refl). reflexivity.
Defined.

(** ** Runs of the server on arbitrary requests *)

Section WireSteps.
Variable token : string.

Lemma wire_step_register (s : Wire.server) (req : Wire.request) (random : string)
    (now : Z) (p : Wire.pending) (effects : list Wire.effect) :
  Wire.r_method req = POST -> Wire.r_pathname req = Some "/api/register"%string ->
  Wire.register_start (Wire.invites s) (Wire.r_body req) random
  = (Wire.Awaiting p, effects) ->
  Wire.step token s (Wire.Request req random now)
  = Some ({| Wire.invites := Wire.invites s;
             Wire.awaiting := <[Wire.next_request s := p]> (Wire.awaiting s);
             Wire.next_request := S (Wire.next_request s) |},
          map (Wire.Performs (Wire.next_request s)) effects).
Proof.
  intros Hm Hp Hs. cbn [Wire.step]. unfold Wire.handle_request.
  rewrite Hm, Hp. unfold Wire.route.
  change (String.eqb "/api/register" "/api/invites") with false.
  rewrite String.eqb_refl. cbv iota.
  cbn [Wire.invites Wire.awaiting Wire.next_request]. by rewrite Hs.
Qed.

Lemma wire_step_settle (s : Wire.server) (id : nat) (reply : listener_reply)
    (now : Z) (p : Wire.pending) (rec : Wire.invite) :
  Wire.awaiting s !! id = Some p ->
  registerOnListener reply = Return tt ->
  Wire.invites s !! Wire.p_invite p = Some rec ->
  JSON.prints (Wire.p_storeName p) ->
  Wire.step token s (Wire.ListenerSettles id reply now)
  = Some ({| Wire.invites :=
               <[Wire.p_invite p := Wire.mark_used rec (Wire.p_storeName p) now]>
                 (Wire.invites s);
             Wire.awaiting := delete id (Wire.awaiting s);
             Wire.next_request := Wire.next_request s |},
          [Wire.Responds id
             (Wire.Json 200 (Wire.Registered (Wire.c_webhookUrl (Wire.p_call p))
                               (Wire.c_webhookSecret (Wire.p_call p))))]).
Proof.
  intros Hp Hok Hrec [printed Hprint]. cbn [Wire.step]. rewrite Hp.
  unfold Wire.register_finish. by rewrite Hok, Hrec, Hprint.
Qed.





End WireSteps.



(** ** From creation to consumption, on arbitrary bodies *)

Lemma wire_step_create (token : string) (s : Wire.server) (raw : option string)
    (v lbl : JSON.value) (random : string) (now : Z) :
  admin_header_ok token (Node.field_value <$> raw) ->
  JSON.prop v "label" = Return lbl ->
  JSON.prints (JSON.or_else lbl (JSON.Str "no label")) ->
  Wire.step token s
    (Wire.Request {| Wire.r_method := POST;
                     Wire.r_pathname := Some "/api/invites"%string;
                     Wire.r_authorization := raw;
                     Wire.r_body := Wire.Parsed v |} random now)
  = Some ({| Wire.invites :=
               <[random := {| Wire.label := JSON.or_else lbl (JSON.Str "");
                              Wire.createdAt := now; Wire.used := false;
                              Wire.usedBy := None; Wire.usedAt := None |}]>
                 (Wire.invites s);
             Wire.awaiting := Wire.awaiting s;
             Wire.next_request := S (Wire.next_request s) |},
          [ Wire.Performs (Wire.next_request s) (Wire.RandomBytes 16);
            Wire.Responds (Wire.next_request s)
              (Wire.Json 200
                 (Wire.InviteCreated random
                    ("https://nostr.bitcoinbutlers.com?invite=" +:+ random))) ]).
Proof.
  intros Hauth Hl [printed Hprint]. cbn [Wire.step]. unfold Wire.handle_request.
  cbn [Wire.r_method Wire.r_pathname Wire.r_authorization Wire.r_body].
  unfold Wire.route. rewrite String.eqb_refl. unfold Wire.create_invite.
  rewrite (proj2 (admin_check token _) Hauth), Hl, Hprint. reflexivity.
Qed.

(** X17: end to end: an invite created with the admin credential and a
    label the log line can print, then presented by a registration whose
    identifier decodes to 64 characters, whose [wooUrl] is a non-empty
    string and whose store name is truthy and can be printed, is consumed
    as soon as the listener accepts the call: the three events produce the
    two 200 answers and one listener call, and leave the record marked with
    the store name and the time of the marking. *)
Theorem invite_lifecycle :
  forall (token : string) (s : Wire.server) (raw auth' : option string)
         (vc lbl v : JSON.value)
         (random secret npub wooUrl pubkeyHex : string)
         (t1 t2 t3 : Z) (reply : listener_reply),
    admin_header_ok token (Node.field_value <$> raw) ->
    JSON.prop vc "label" = Return lbl ->
    JSON.prints (JSON.or_else lbl (JSON.Str "no label")) ->
    random <> EmptyString ->
    JSON.prop v "invite" = Return (JSON.Str random) ->
    JSON.field v "npub" = JSON.Str npub ->
    JSON.field v "wooUrl" = JSON.Str wooUrl -> wooUrl <> EmptyString ->
    JSON.truthy (JSON.field v "storeName") = true ->
    JSON.prints (JSON.field v "storeName") ->
    npubToHex npub = Return pubkeyHex -> String.length pubkeyHex = 64%nat ->
    registerOnListener reply = Return tt ->
    let id1 := Wire.next_request s in
    let id2 := S (Wire.next_request s) in
    let fresh := {| Wire.label := JSON.or_else lbl (JSON.Str "");
                    Wire.createdAt := t1; Wire.used := false;
                    Wire.usedBy := None; Wire.usedAt := None |} in
    let call := Wire.registration_call pubkeyHex (JSON.field v "storeName")
                  wooUrl secret in
    exists s',
      Wire.run token s
        [ Wire.Request {| Wire.r_method := POST;
                          Wire.r_pathname := Some "/api/invites"%string;
                          Wire.r_authorization := raw;
                          Wire.r_body := Wire.Parsed vc |} random t1;
          Wire.Request {| Wire.r_method := POST;
                          Wire.r_pathname := Some "/api/register"%string;
                          Wire.r_authorization := auth';
                          Wire.r_body := Wire.Parsed v |} secret t2;
          Wire.ListenerSettles id2 reply t3 ]
      = Some (s',
              [ Wire.Performs id1 (Wire.RandomBytes 16);
                Wire.Responds id1
                  (Wire.Json 200
                     (Wire.InviteCreated random
                        ("https://nostr.bitcoinbutlers.com?invite=" +:+ random)));
                Wire.Performs id2 (Wire.RandomBytes 32);
                Wire.Performs id2 (Wire.CallListener call);
                Wire.Responds id2
                  (Wire.Json 200 (Wire.Registered (Wire.c_webhookUrl call) secret)) ]) /\
      Wire.invites s' !! random
      = Some (Wire.mark_used fresh (JSON.field v "storeName") t3) /\
      (forall tok, tok <> random -> Wire.invites s' !! tok = Wire.invites s !! tok).
Proof.
  intros token s raw auth' vc lbl v random secret npub wooUrl pubkeyHex
    t1 t2 t3 reply Hauth Hl Hprint Hrandom Hi Hn Hw Hw' Hs Hs' Hdec Hlen Hok
    id1 id2 fresh call.
  set (inv1 := <[random := fresh]> (Wire.invites s)).
  set (s1 := {| Wire.invites := inv1; Wire.awaiting := Wire.awaiting s;
                Wire.next_request := id2 |}).
  set (p := {| Wire.p_invite := random; Wire.p_storeName := JSON.field v "storeName";
               Wire.p_call := call |}).
  assert (Hinv : Wire.presents_unused inv1 v random).
  { exists (JSON.Str random). split; [exact Hi |]. split.
    - cbn. apply negb_true_iff, String.eqb_neq. exact Hrandom.
    - split; [reflexivity |]. exists fresh.
      split; [apply lookup_insert_eq | reflexivity]. }
  assert (Hstart : Wire.register_start inv1 (Wire.Parsed v) secret
                   = (Wire.Awaiting p,
                      [Wire.RandomBytes 32; Wire.CallListener call])).
  { rewrite (wire_register_start_presented inv1 v random secret Hinv).
    exact (wire_validate_valid v random secret npub wooUrl pubkeyHex
             Hn Hw Hw' Hs Hdec Hlen). }
  set (s2 := {| Wire.invites := inv1; Wire.awaiting := <[id2 := p]> (Wire.awaiting s);
                Wire.next_request := S id2 |}).
  assert (Hstep1 :
            Wire.step token s
              (Wire.Request {| Wire.r_method := POST;
                               Wire.r_pathname := Some "/api/invites"%string;
                               Wire.r_authorization := raw;
                               Wire.r_body := Wire.Parsed vc |} random t1)
            = Some (s1,
                    [ Wire.Performs id1 (Wire.RandomBytes 16);
                      Wire.Responds id1
                        (Wire.Json 200
                           (Wire.InviteCreated random
                              ("https://nostr.bitcoinbutlers.com?invite=" +:+ random))) ]))
    by exact (wire_step_create token s raw vc lbl random t1 Hauth Hl Hprint).
  assert (Hstep2 :
            Wire.step token s1
              (Wire.Request {| Wire.r_method := POST;
                               Wire.r_pathname := Some "/api/register"%string;
                               Wire.r_authorization := auth';
                               Wire.r_body := Wire.Parsed v |} secret t2)
            = Some (s2, [ Wire.Performs id2 (Wire.RandomBytes 32);
                          Wire.Performs id2 (Wire.CallListener call) ]))
    by exact (wire_step_register token s1
                {| Wire.r_method := POST;
                   Wire.r_pathname := Some "/api/register"%string;
                   Wire.r_authorization := auth';
                   Wire.r_body := Wire.Parsed v |} secret t2 p
                [Wire.RandomBytes 32; Wire.CallListener call]
                eq_refl eq_refl Hstart).
  pose proof (wire_step_settle token s2 id2 reply t3 p fresh
                ltac:(cbn; by rewrite lookup_insert_eq) Hok
                ltac:(cbn; apply lookup_insert_eq) Hs') as Hstep3.
  eexists. split; [| split].
  - cbn [Wire.run]. rewrite Hstep1, Hstep2, Hstep3. reflexivity.
  - unfold s2, p. cbn [Wire.invites Wire.p_invite Wire.p_storeName].
    by rewrite lookup_insert_eq.
  - intros tok Hne. unfold s2, p, inv1. cbn [Wire.invites Wire.p_invite].
    by rewrite !lookup_insert_ne.
Qed.

Lemma invite_lifecycle_witness :
  admin_header_ok Scenario.admin_token
    (Node.field_value <$> Some "  Bearer s3cret "%string) /\
  JSON.prints (JSON.or_else (JSON.Num "0") (JSON.Str "no label")) /\
  JSON.prints (JSON.Num "7") /\
  npubToHex generator_npub = Return generator_hex /\
  registerOnListener Scenario.accepted = Return tt /\
  exists s',
    Wire.run Scenario.admin_token Wire.initial
      [ Wire.Request {| Wire.r_method := POST;
                        Wire.r_pathname := Some "/api/invites"%string;
                        Wire.r_authorization := Some "  Bearer s3cret "%string;
                        Wire.r_body :=
                          Wire.Parsed (JSON.Obj [("label"%string, JSON.Num "0")]) |}
          Scenario.tok 1000;
        Wire.Request (Traffic.register_request (JSON.Num "7")) "aa" 1001;
        Wire.ListenerSettles 1 Scenario.accepted 1002 ]
    = Some (s',
            [ Wire.Performs 0 (Wire.RandomBytes 16);
              Wire.Responds 0
                (Wire.Json 200
                   (Wire.InviteCreated Scenario.tok
                      ("https://nostr.bitcoinbutlers.com?invite=" +:+ Scenario.tok)));
              Wire.Performs 1 (Wire.RandomBytes 32);
              Wire.Performs 1 (Wire.CallListener (Traffic.call (JSON.Num "7") "aa"));
              Wire.Responds 1
                (Wire.Json 200
                   (Wire.Registered
                      "https://shop.example/wp-json/woo-nostr-market/v1/order-webhook"
                      "aa")) ]) /\
    Wire.invites s' !! Scenario.tok
    = Some {| Wire.label := JSON.Str ""; Wire.createdAt := 1000; Wire.used := true;
              Wire.usedBy := Some (JSON.Num "7"); Wire.usedAt := Some 1002 |}.
Proof.
  assert (H1 : admin_header_ok Scenario.admin_token
                 (Node.field_value <$> Some "  Bearer s3cret "%string)).
  { exists "Bearer s3cret"%string. split; [reflexivity |]. split; [discriminate |].
    reflexivity. }
  assert (H2 : JSON.prints (JSON.or_else (JSON.Num "0") (JSON.Str "no label")))
    by (by exists "no label"%string).
  assert (H3 : JSON.prints (JSON.Num "7")) by (by exists "7"%string).
  assert (H4 : npubToHex generator_npub = Return generator_hex)
    by (vm_compute; reflexivity).
  split; [exact H1 |]. split; [exact H2 |]. split; [exact H3 |].
  split; [exact H4 |]. split; [reflexivity |].
  destruct (invite_lifecycle Scenario.admin_token Wire.initial
              (Some "  Bearer s3cret "%string) None
              (JSON.Obj [("label"%string, JSON.Num "0")]) (JSON.Num "0")
              (Traffic.registration (JSON.Num "7")) Scenario.tok "aa" generator_npub
              "https://shop.example/" generator_hex 1000 1001 1002
              Scenario.accepted H1 eq_refl H2 ltac:(discriminate) eq_refl eq_refl
              eq_refl ltac:(discriminate) eq_refl H3 H4 eq_refl eq_refl)
    as (s' & Hrun & Hrec & _).
  exists s'. split; [exact Hrun | exact Hrec].
Defined.

(** ** Registrations in flight, on arbitrary bodies *)



(** ** What a registration that reaches the listener does to its invite *)




(** ** The handlers on string properties, among the handlers on all bodies *)

Section Agreement.







End Agreement.

